(** * An image-labelling AWS Lambda handler (main.go), embedded in Rocq

    The handler receives S3 event records, fetches each image object,
    stamps the text "This is watermark" on it and stores the result under
    [labeled-images/<basename>].

    The development follows the layout of the Go file:
    - Go strings and the library functions [strings.ToLower],
      [strings.HasSuffix] and [path.Base];
    - [isImageFile];
    - the [image], [image/draw] and [font] operations used by [addLabel];
    - [addLabel];
    - the S3 object store, the effects of a worker and [handleImage]. *)

From Stdlib Require Import ZArith Lia Ascii String List.
From stdpp Require Import base option list strings gmap.

Open Scope Z_scope.

(** ** Go strings

    A Go string is a sequence of bytes; it is embedded as a Rocq [string]
    and read as a list of bytes when it is sliced. *)

Module GoString.

Definition bytes (s : string) : list ascii := list_ascii_of_string s.
Definition str (l : list ascii) : string := string_of_list_ascii l.

(** [len(s)] *)
Definition len (s : string) : nat := length (bytes s).

(** [s[i:]] *)
Definition sliceFrom (i : nat) (s : string) : string := str (drop i (bytes s)).

(** The numeric value of a byte. *)
Definition code (c : ascii) : Z := Z.of_N (N_of_ascii c).

(** [c < utf8.RuneSelf] *)
Definition isASCII (c : ascii) : bool := code c <? 128.

(** ['A' <= c && c <= 'Z'] *)
Definition isUpper (c : ascii) : bool := (65 <=? code c) && (code c <=? 90).

(** [c += 'a' - 'A'] on upper-case bytes, the identity on the others. *)
Definition lowerByte (c : ascii) : ascii :=
  if isUpper c then ascii_of_N (Z.to_N (code c + 32)) else c.

(** [strings.HasSuffix]:
    [len(s) >= len(suffix) && s[len(s)-len(suffix):] == suffix]. *)
Definition HasSuffix (s suffix : string) : bool :=
  (len suffix <=? len s)%nat
  && bool_decide (sliceFrom (len s - len suffix) s = suffix).

(** The first loop of [strings.ToLower]: is every byte below
    [utf8.RuneSelf]? *)
Definition allASCII (s : string) : bool := forallb isASCII (bytes s).

(** Two bytes are equal up to the case of ASCII letters. *)
Definition eqIgnoringCase (c d : ascii) : Prop := lowerByte c = lowerByte d.

(** [key] ends in [ext], up to the case of ASCII letters: its last
    [len ext] bytes match those of [ext] one by one. *)
Definition endsIgnoringCase (key ext : string) : Prop :=
  exists pre suf, bytes key = pre ++ suf /\ Forall2 eqIgnoringCase suf (bytes ext).

(** ASCII bytes that lowering leaves alone and that no rune outside
    ASCII is lowered to ([unicode.ToLower] sends U+0130 to 'i' and
    U+212A to 'k'). *)
Definition stable (c : ascii) : bool :=
  isASCII c && negb (isUpper c)
  && negb (Ascii.eqb c "i"%char) && negb (Ascii.eqb c "k"%char).

End GoString.

Import GoString.

(** [path.Base]: the empty path gives ".", trailing slashes are stripped,
    what follows the last slash is kept, and a path of slashes only
    gives "/". The two loops run from the end of the path, so they are
    written over the reversed list of bytes. *)
Module GoPath.

Definition isSlash (c : ascii) : bool := Ascii.eqb c "/"%char.

(** [for len(path) > 0 && path[len(path)-1] == '/' { path = path[0 : len(path)-1] }] *)
Fixpoint dropSlashes (rp : list ascii) : list ascii :=
  match rp with
  | c :: t => if isSlash c then dropSlashes t else rp
  | [] => []
  end.

(** [lastSlash] followed by [path = path[i+1:]]: the bytes behind the last
    slash, all of the path when it has none. *)
Fixpoint untilSlash (rp : list ascii) : list ascii :=
  match rp with
  | c :: t => if isSlash c then [] else c :: untilSlash t
  | [] => []
  end.

Definition Base (path : string) : string :=
  if bool_decide (path = "") then "."
  else
    let stripped := dropSlashes (rev (bytes path)) in
    let last := rev (untilSlash stripped) in
    if bool_decide (last = []) then "/" else str last.

(** The elements of a path: what lies between its slashes. *)
Fixpoint splitSlash (p : list ascii) : list (list ascii) :=
  match p with
  | [] => [[]]
  | c :: t =>
      if isSlash c then [] :: splitSlash t
      else
        match splitSlash t with
        | e :: rest => (c :: e) :: rest
        | [] => [[c]]
        end
  end.

Fixpoint joinSlash (elems : list (list ascii)) : list ascii :=
  match elems with
  | [] => []
  | [e] => e
  | e :: rest => e ++ "/"%char :: joinSlash rest
  end.

Definition dotElem : list ascii := ["."%char].
Definition dotdotElem : list ascii := ["."%char; "."%char].

(** A path element that [path.Clean] keeps as it is: not empty, without
    slash, and neither "." nor "..". *)
Definition realElem (e : list ascii) : Prop :=
  e <> [] /\ Forall (fun c => c <> "/"%char) e /\ e <> dotElem /\ e <> dotdotElem.

(** The loop of [path.Clean], element by element; [out] holds the
    elements written so far, the last one first. An empty element and "."
    are dropped. ".." takes back the last element written; when there is
    none to take back (or only ".." elements, which a path that is not
    rooted keeps in front) it is dropped in a rooted path and written in
    the others. Any other element is written. *)
Fixpoint cleanElems (rooted : bool) (out elems : list (list ascii)) : list (list ascii) :=
  match elems with
  | [] => rev out
  | e :: rest =>
      if bool_decide (e = []) || bool_decide (e = dotElem) then cleanElems rooted out rest
      else if bool_decide (e = dotdotElem) then
        match out with
        | top :: out' =>
            if bool_decide (top = dotdotElem) then cleanElems rooted (e :: out) rest
            else cleanElems rooted out' rest
        | [] => if rooted then cleanElems rooted out rest else cleanElems rooted [e] rest
        end
      else cleanElems rooted (e :: out) rest
  end.

(** [path.Clean]: the shortest path equivalent to [path] by purely
    lexical processing; the empty path gives ".". *)
Definition Clean (path : string) : string :=
  match bytes path with
  | [] => "."
  | c :: _ =>
      let rooted := isSlash c in
      let out := joinSlash (cleanElems rooted [] (splitSlash (bytes path))) in
      if rooted then str ("/"%char :: out)
      else if bool_decide (out = []) then "."
      else str out
  end.

End GoPath.

Import GoPath.

(** ** Integers of fixed width

    Go's [int] has 64 bits on the platforms of AWS Lambda and
    [fixed.Int26_6] is an [int32]; a conversion keeps the low bits. *)
Module GoInt.

Definition wrap (bits : Z) (z : Z) : Z :=
  (z + 2 ^ (bits - 1)) mod 2 ^ bits - 2 ^ (bits - 1).

Definition int64 (z : Z) : Z := wrap 64 z.
Definition int32 (z : Z) : Z := wrap 32 z.
Definition maxInt : Z := 2 ^ 63 - 1.

End GoInt.

Import GoInt.

(** ** Images, drawing and fonts

    The parts of [image], [image/color], [image/draw] and
    [golang.org/x/image/font] that [addLabel] goes through. Pixel buffers
    are read as functions of the pixel's coordinates. *)
Module GoImage.

Record Point : Type := Pt { X : Z; Y : Z }.
Record Rectangle : Type := mkRect { Min : Point; Max : Point }.

Definition Point_Add (p q : Point) : Point := Pt (X p + X q) (Y p + Y q).
Definition Point_Sub (p q : Point) : Point := Pt (X p - X q) (Y p - Y q).

Definition Dx (r : Rectangle) : Z := X (Max r) - X (Min r).
Definition Dy (r : Rectangle) : Z := Y (Max r) - Y (Min r).

(** [r.Min.X >= r.Max.X || r.Min.Y >= r.Max.Y] *)
Definition Empty (r : Rectangle) : bool :=
  (X (Max r) <=? X (Min r)) || (Y (Max r) <=? Y (Min r)).

Definition ZR : Rectangle := mkRect (Pt 0 0) (Pt 0 0).

(** [Rectangle.Add]: the rectangle translated by [p]. *)
Definition Rect_Add (r : Rectangle) (p : Point) : Rectangle :=
  mkRect (Point_Add (Min r) p) (Point_Add (Max r) p).

(** [Rectangle.Intersect]: the largest rectangle in both, [ZR] when they
    do not overlap. *)
Definition Intersect (r s : Rectangle) : Rectangle :=
  let r' := mkRect (Pt (Z.max (X (Min r)) (X (Min s))) (Z.max (Y (Min r)) (Y (Min s))))
                   (Pt (Z.min (X (Max r)) (X (Max s))) (Z.min (Y (Max r)) (Y (Max s)))) in
  if Empty r' then ZR else r'.

(** [Point.In] *)
Definition inRect (x y : Z) (r : Rectangle) : bool :=
  (X (Min r) <=? x) && (x <? X (Max r)) && (Y (Min r) <=? y) && (y <? Y (Max r)).

(** A [color.Color] is read through its [RGBA()] method: four
    alpha-premultiplied channels of 16 bits. *)
Record Color : Type := mkColor { R16 : Z; G16 : Z; B16 : Z; A16 : Z }.

(** An [image.Image] of any concrete type: its bounds and [At]. *)
Record Image : Type := mkImage { Bounds : Rectangle; At : Z -> Z -> Color }.

(** [color.RGBA]: four channels of 8 bits. *)
Record RGBAColor : Type := mkRGBA { cR : Z; cG : Z; cB : Z; cA : Z }.

(** [*image.RGBA] *)
Record RGBA : Type := mkRGBAImage { Rect : Rectangle; Pix : Z -> Z -> RGBAColor }.

Definition uint8 (z : Z) : Z := z mod 256.
Definition uint32 (z : Z) : Z := z mod 2 ^ 32.

(** [color.RGBAModel.Convert], which is what [draw.Draw] stores in an
    [*image.RGBA] for a source pixel: [uint8(r >> 8)] on each channel. *)
Definition rgbaModel (c : Color) : RGBAColor :=
  mkRGBA (uint8 (Z.shiftr (R16 c) 8)) (uint8 (Z.shiftr (G16 c) 8))
         (uint8 (Z.shiftr (B16 c) 8)) (uint8 (Z.shiftr (A16 c) 8)).

(** [image.NewRGBA]: a buffer of zeroes; it panics ([None]) when the
    rectangle has a negative side or its [4 * Dx * Dy] bytes do not fit
    an [int]. *)
Definition NewRGBA (r : Rectangle) : option RGBA :=
  if (0 <=? Dx r) && (0 <=? Dy r) && (4 * Dx r * Dy r <=? maxInt)
  then Some (mkRGBAImage r (fun _ _ => mkRGBA 0 0 0 0))
  else None.

(** [draw.Draw(dst, r, src, sp, draw.Src)]: [r.Min] in [dst] is aligned
    with [sp] in [src]; [r] is clipped to the bounds of [dst] and to the
    bounds of [src] moved by [r.Min - sp]; every pixel of what is left
    is replaced by the source pixel. *)
Definition Draw_Src (dst : RGBA) (r : Rectangle) (src : Image) (sp : Point) : RGBA :=
  let orig := Min r in
  let r1 := Intersect r (Rect dst) in
  let r2 := Intersect r1 (Rect_Add (Bounds src) (Point_Sub orig sp)) in
  if Empty r2 then dst
  else
    mkRGBAImage (Rect dst)
      (fun x y =>
         if inRect x y r2
         then rgbaModel (At src (X sp + (x - X orig)) (Y sp + (y - Y orig)))
         else Pix dst x y).

(** [*image.Alpha]: a mask of 8-bit alpha values. *)
Record Alpha : Type := mkAlpha { ARect : Rectangle; APix : Z -> Z -> Z }.

(** [image.Uniform.Bounds] *)
Definition UniformBounds : Rectangle :=
  mkRect (Pt (-1000000000) (-1000000000)) (Pt 1000000000 1000000000).

(** One pixel of [drawGlyphOver]: the colour [c] of an [image.Uniform]
    composed over the destination pixel [d] through the mask value [ma0]. *)
Definition glyphOver (c : RGBAColor) (ma0 : Z) (d : RGBAColor) : RGBAColor :=
  if ma0 =? 0 then d
  else
    let m := 65535 in
    let ma := Z.lor ma0 (Z.shiftl ma0 8) in
    let sa := cA c * 257 in
    let a := uint32 ((m - sa * ma / m) * 257) in
    let over s0 d0 := uint8 (Z.shiftr (uint32 (d0 * a + (s0 * 257) * ma) / m) 8) in
    mkRGBA (over (cR c) (cR d)) (over (cG c) (cG d))
           (over (cB c) (cB d)) (over (cA c) (cA d)).

(** [draw.DrawMask(dst, r, image.NewUniform(c), image.Point{}, mask, mp,
    draw.Over)] with an [*image.Alpha] mask: [r] is clipped to [dst], to
    the uniform source and to the mask moved by [r.Min - mp]. *)
Definition DrawMask_Over (dst : RGBA) (r : Rectangle) (c : RGBAColor)
    (mask : Alpha) (mp : Point) : RGBA :=
  let orig := Min r in
  let r1 := Intersect r (Rect dst) in
  let r2 := Intersect r1 (Rect_Add UniformBounds (Point_Sub orig (Pt 0 0))) in
  let r3 := Intersect r2 (Rect_Add (ARect mask) (Point_Sub orig mp)) in
  if Empty r3 then dst
  else
    mkRGBAImage (Rect dst)
      (fun x y =>
         if inRect x y r3
         then glyphOver c (APix mask (X mp + (x - X orig)) (Y mp + (y - Y orig))) (Pix dst x y)
         else Pix dst x y).

(** [font.Face]: [Glyph] gives, for a dot and a rune, the destination
    rectangle, the mask, the mask's origin and the advance, or nothing
    when the face has no glyph; [Kern] is the adjustment between two
    runes. Positions are [fixed.Point26_6]. *)
Record Face : Type := mkFace {
  Glyph : Point -> Z -> option (Rectangle * Alpha * Point * Z);
  Kern : Z -> Z -> Z
}.

(** The masks of a bitmap font hold 0 and 255 only. *)
Definition binaryFace (face : Face) : Prop :=
  forall dot r dr mask maskp advance,
    Glyph face dot r = Some (dr, mask, maskp, advance) ->
    forall x y, APix mask x y = 0 \/ APix mask x y = 255.

(** [font.Drawer] *)
Record Drawer : Type := mkDrawer {
  Dst : RGBA;
  Src : RGBAColor;
  TheFace : Face;
  Dot : Point
}.

(** The body of [Drawer.DrawString], over the runes of the string:
    [prevC] starts at [-1]; a rune without glyph is skipped. *)
Fixpoint DrawRunes (d : Drawer) (prevC : Z) (cs : list Z) : Drawer :=
  match cs with
  | [] => d
  | c :: rest =>
      let dot :=
        if 0 <=? prevC
        then Pt (int32 (X (Dot d) + Kern (TheFace d) prevC c)) (Y (Dot d))
        else Dot d in
      match Glyph (TheFace d) dot c with
      | None => DrawRunes (mkDrawer (Dst d) (Src d) (TheFace d) dot) prevC rest
      | Some (dr, mask, maskp, advance) =>
          let dst := DrawMask_Over (Dst d) dr (Src d) mask maskp in
          DrawRunes (mkDrawer dst (Src d) (TheFace d) (Pt (int32 (X dot + advance)) (Y dot)))
                    c rest
      end
  end.

(** Whether the glyph drawn by [DrawMask_Over] writes the pixel (x, y):
    the pixel lies in what is left of the glyph's rectangle after
    clipping and its mask value is not zero. *)
Definition glyphCovers (dst : RGBA) (r : Rectangle) (mask : Alpha) (mp : Point)
    (x y : Z) : bool :=
  let orig := Min r in
  let r1 := Intersect r (Rect dst) in
  let r2 := Intersect r1 (Rect_Add UniformBounds (Point_Sub orig (Pt 0 0))) in
  let r3 := Intersect r2 (Rect_Add (ARect mask) (Point_Sub orig mp)) in
  negb (Empty r3) && inRect x y r3
  && negb (APix mask (X mp + (x - X orig)) (Y mp + (y - Y orig)) =? 0).

(** Whether one of the glyphs that [DrawRunes] draws writes the pixel
    (x, y); the dot moves as in [DrawRunes]. *)
Fixpoint runesCover (d : Drawer) (prevC : Z) (cs : list Z) (x y : Z) : bool :=
  match cs with
  | [] => false
  | c :: rest =>
      let dot :=
        if 0 <=? prevC
        then Pt (int32 (X (Dot d) + Kern (TheFace d) prevC c)) (Y (Dot d))
        else Dot d in
      match Glyph (TheFace d) dot c with
      | None => runesCover (mkDrawer (Dst d) (Src d) (TheFace d) dot) prevC rest x y
      | Some (dr, mask, maskp, advance) =>
          glyphCovers (Dst d) dr mask maskp x y
          || runesCover
               (mkDrawer (DrawMask_Over (Dst d) dr (Src d) mask maskp) (Src d) (TheFace d)
                         (Pt (int32 (X dot + advance)) (Y dot)))
               c rest x y
      end
  end.

End GoImage.

Import GoImage.

(** ** The object store and the effects of a worker

    A worker talks to S3, writes log lines and may end the process. The
    store is a finite map from (bucket, key) to objects; what a worker does
    is recorded, in order, in a trace. *)
Module Effects.

Record StoredObject : Type := mkObject {
  Body : list Byte.byte;
  ContentType : string
}.

(** [s3.PutObjectInput] *)
Record PutObjectInput : Type := mkPut {
  PutBucket : string;
  PutKey : string;
  PutBody : list Byte.byte;
  PutContentType : string
}.

Inductive Codec : Type := PNG | JPEG.

Inductive LogLine : Type :=
| LogStart (key : string)
| LogUnableToDownload (key : string)
| LogUnableToDecode (key : string)
| LogAddLabel (x y : Z)
| LogEncodeError
| LogSaving
| LogFailedToSave (key : string).

Inductive Event : Type :=
| EvLog (line : LogLine)
| EvGetObject (bucket key : string)
| EvBodyClose
| EvAddLabel (x y : Z) (label : string)
| EvEncode (codec : Codec)
| EvPutObject (input : PutObjectInput)
| EvDone.

Record World : Type := mkWorld {
  objects : gmap (string * string) StoredObject;
  trace : list Event
}.

(** How a piece of the worker ends: with a value, with [os.Exit(code)]
    (behind [log.Fatal] and [log.Fatalf]), or with a panic. *)
Inductive Result (A : Type) : Type :=
| Value (a : A)
| Exit (code : Z)
| Panic.
Arguments Value {A} a.
Arguments Exit {A} code.
Arguments Panic {A}.

Definition M (A : Type) : Type := World -> Result A * World.

Definition ret {A} (a : A) : M A := fun w => (Value a, w).

Definition bind {A B} (m : M A) (k : A -> M B) : M B :=
  fun w =>
    match m w with
    | (Value a, w') => k a w'
    | (Exit code, w') => (Exit code, w')
    | (Panic, w') => (Panic, w')
    end.

Definition emit (e : Event) : M unit :=
  fun w => (Value tt, mkWorld (objects w) (trace w ++ [e])).

Definition panic {A} : M A := fun w => (Panic, w).

(** [log.Fatal], [log.Fatalf]: the line is written, then [os.Exit(1)]. *)
Definition fatal {A} (line : LogLine) : M A :=
  fun w => (Exit 1, mkWorld (objects w) (trace w ++ [EvLog line])).

(** [defer f()] around the rest of a function: [f] runs when the
    function returns and while it panics, not when the process exits. *)
Definition defer {A} (e : Event) (body : M A) : M A :=
  fun w =>
    match body w with
    | (Value a, w') => (Value a, mkWorld (objects w') (trace w' ++ [e]))
    | (Exit code, w') => (Exit code, w')
    | (Panic, w') => (Panic, mkWorld (objects w') (trace w' ++ [e]))
    end.

(** What the worker is given from outside: whether S3 refuses a request
    (credentials, network), and the codecs registered with [image]. *)
Record Env : Type := mkEnv {
  getRefused : string -> string -> bool;
  putRefused : PutObjectInput -> bool;
  image_Decode : list Byte.byte -> option (Image * string);
  png_Encode : RGBA -> option (list Byte.byte);
  jpeg_Encode : RGBA -> option (list Byte.byte)
}.

(** [cleanPath] of the SDK's REST protocol, applied to the path of every
    request unless [DisableRestProtocolURICleaning] is set, which the
    handler's session does not do: the path goes through [path.Clean],
    and a trailing slash that this removes is put back. *)
Definition cleanPath (urlPath : string) : string :=
  let hasSlash := HasSuffix urlPath "/" in
  let cleaned := Clean urlPath in
  if hasSlash && negb (HasSuffix cleaned "/") then cleaned +:+ "/" else cleaned.

(** The key of the object that a request made with [key] reaches. The
    bucket is named in the host of the request, so the path of the
    request is a slash followed by the key. *)
Definition objectKey (key : string) : string :=
  sliceFrom 1 (cleanPath ("/" +:+ key)).

(** What S3 answers to a [GetObject] request: the body of the object, or
    an error ([None]) when the request is refused or there is no such
    object. *)
Definition getAnswer (env : Env) (w : World) (bucket key : string)
    : option (list Byte.byte) :=
  if getRefused env bucket key then None
  else Body <$> objects w !! (bucket, objectKey key).

(** [client.GetObject] *)
Definition GetObject (env : Env) (bucket key : string) : M (option (list Byte.byte)) :=
  fun w =>
    (Value (getAnswer env w bucket key),
     mkWorld (objects w) (trace w ++ [EvGetObject bucket key])).

(** [client.PutObject]: the object is written whole or not at all; the
    result is [true] when the call returns an error. *)
Definition PutObject (env : Env) (input : PutObjectInput) : M bool :=
  fun w =>
    let tr := trace w ++ [EvPutObject input] in
    if putRefused env input then (Value true, mkWorld (objects w) tr)
    else
      (Value false,
       mkWorld (<[(PutBucket input, objectKey (PutKey input)) :=
                    mkObject (PutBody input) (PutContentType input)]> (objects w)) tr).

(** [events.S3EventRecord], down to the two fields the worker reads. *)
Record S3Bucket : Type := mkBucket { Name : string }.
Record S3Object : Type := mkS3Object { Key : string }.
Record S3Entity : Type := mkEntity { Bucket : S3Bucket; Object : S3Object }.
Record S3EventRecord : Type := mkRecord { S3 : S3Entity }.

Definition keyOf (record : S3EventRecord) : string := Key (Object (S3 record)).
Definition bucketOf (record : S3EventRecord) : string := Name (Bucket (S3 record)).

(** The encoder behind a codec, and the codec the [switch] of the
    worker picks for one of the three extensions. *)
Definition encoder (env : Env) (codec : Codec) : RGBA -> option (list Byte.byte) :=
  match codec with
  | PNG => png_Encode env
  | JPEG => jpeg_Encode env
  end.

Definition codecOf (ext : string) : Codec :=
  if String.eqb ext "png" then PNG else JPEG.

(** The coordinate the two branches of the placement test pass to
    [addLabel], as a function of [bounds.Max]. *)
Definition anchorOf (img : Image) : Z :=
  if (X (Max (Bounds img)) <? 20) && (Y (Max (Bounds img)) <? 20) then 0 else 20.

(** What a trace shows: the requests to S3, the encoders run and the
    calls of [addLabel]. *)
Definition getCalls (tr : list Event) : list (string * string) :=
  omap (fun e => match e with EvGetObject b k => Some (b, k) | _ => None end) tr.

Definition putCalls (tr : list Event) : list PutObjectInput :=
  omap (fun e => match e with EvPutObject input => Some input | _ => None end) tr.

Definition encodeCalls (tr : list Event) : list Codec :=
  omap (fun e => match e with EvEncode c => Some c | _ => None end) tr.

Definition addLabelCalls (tr : list Event) : list (Z * Z * string) :=
  omap (fun e => match e with EvAddLabel x y l => Some (x, y, l) | _ => None end) tr.

(** The same environment with other format names out of [image.Decode]. *)
Definition withFormatNames (f : list Byte.byte -> string -> string) (env : Env) : Env :=
  mkEnv (getRefused env) (putRefused env)
        (fun b => match image_Decode env b with
                  | Some (img, fmt) => Some (img, f b fmt)
                  | None => None
                  end)
        (png_Encode env) (jpeg_Encode env).

(** A key of the form [labeled-images/<basename>]: the prefix followed
    by a name that is not empty and has no slash. *)
Definition labeledForm (key : string) : Prop :=
  exists name, key = "labeled-images/" +:+ name /\ name <> ""
               /\ Forall (fun c => c <> "/"%char) (bytes name).

End Effects.

Import Effects.

Notation "x <- m ;; k" := (bind m (fun x => k))
  (at level 100, m at next level, k at level 200, right associativity).
Notation "m ;;; k" := (bind m (fun _ => k))
  (at level 100, k at level 200, right associativity).

(** ** Sample data

    Images, an environment and a store to run the worker on. *)
Module Sample.

Definition white : Color := mkColor 65535 65535 65535 65535.
Definition black : Color := mkColor 0 0 0 65535.

(** An image whose bounds do not start at the origin, as [SubImage]
    gives them: two pixels in a row, (1, 0) white and (2, 0) opaque
    black. *)
Definition shiftedImage : Image :=
  mkImage (mkRect (Pt 1 0) (Pt 3 1)) (fun x _ => if x =? 1 then white else black).

(** A decoder that takes every byte outside ASCII for an invalid
    sequence: [utf8.RuneError], one byte wide; and the three bytes of
    U+FFFD, which is its own lower-case form. *)
Definition sampleDecodeRune (s : string) : Z * nat := (65533, 1%nat).

Definition sampleLowerRune (r : Z) : string :=
  String (ascii_of_nat 239) (String (ascii_of_nat 191) (String (ascii_of_nat 189) "")).

(** A face with the metrics of a 7x13 bitmap font and a checkered
    bitmap for every rune from the space to the tilde. *)
Definition sampleFace : Face :=
  mkFace
    (fun dot r =>
       if (32 <=? r) && (r <? 127) then
         let x := Z.shiftr (int32 (X dot + 32)) 6 in
         let y := Z.shiftr (int32 (Y dot + 32)) 6 in
         Some (mkRect (Pt x (y - 11)) (Pt (x + 6) (y + 2)),
               mkAlpha (mkRect (Pt 0 0) (Pt 6 1235))
                       (fun mx my => if Z.even (mx + my) then 255 else 0),
               Pt 0 ((r - 32) * 13),
               448)
       else None)
    (fun _ _ => 0).

Definition smallImage : Image := mkImage (mkRect (Pt 0 0) (Pt 10 10)) (fun _ _ => white).
Definition largeImage : Image := mkImage (mkRect (Pt 0 0) (Pt 800 600)) (fun _ _ => black).

(** An image with bounds from (10, 10) to (25, 25): 15 pixels wide and
    high. *)
Definition offsetImage : Image := mkImage (mkRect (Pt 10 10) (Pt 25 25)) (fun _ _ => white).

Definition onePixel : RGBA :=
  mkRGBAImage (mkRect (Pt 0 0) (Pt 1 1)) (fun _ _ => mkRGBA 255 0 0 255).

Definition sampleDecode (body : list Byte.byte) : option (Image * string) :=
  match body with
  | [Byte.x01] => Some (smallImage, "png")
  | [Byte.x02] => Some (largeImage, "jpeg")
  | _ => None
  end.

Definition sampleEnv : Env :=
  mkEnv (fun _ _ => false) (fun _ => false) sampleDecode
        (fun _ => Some [Byte.x89; Byte.x50; Byte.x4e; Byte.x47])
        (fun _ => Some [Byte.xff; Byte.xd8]).

(** The same with an S3 that refuses every store. *)
Definition readOnlyEnv : Env :=
  mkEnv (fun _ _ => false) (fun _ => true) sampleDecode
        (fun _ => Some [Byte.x89; Byte.x50; Byte.x4e; Byte.x47])
        (fun _ => Some [Byte.xff; Byte.xd8]).

Definition sampleWorld : World :=
  mkWorld
    (<[("bucket", "photos/cat.PNG") := mkObject [Byte.x01] "image/png"]>
       (<[("bucket", "photos/dog.jpg") := mkObject [Byte.x02] "image/jpeg"]>
          (<[("bucket", "photos/torn.png") := mkObject [Byte.x00] "image/png"]>
             (<[("bucket", "labeled-images/cat.png") := mkObject [Byte.x01] "image/png"]>
                ∅))))
    [].

Definition recordOf (key : string) : S3EventRecord :=
  mkRecord (mkEntity (mkBucket "bucket") (mkS3Object key)).

(** The same environment with encoders that fail. *)
Definition brokenEncoderEnv : Env :=
  mkEnv (fun _ _ => false) (fun _ => false) sampleDecode (fun _ => None) (fun _ => None).

(** A store with one file name in two directories. *)
Definition albumWorld : World :=
  mkWorld
    (<[("bucket", "cats/tom.png") := mkObject [Byte.x01] "image/png"]>
       (<[("bucket", "toons/tom.png") := mkObject [Byte.x01] "image/png"]> ∅))
    [].

(** A store that shares one object with [sampleWorld], after other work. *)
Definition laterWorld : World :=
  mkWorld
    (<[("bucket", "photos/cat.PNG") := mkObject [Byte.x01] "image/png"]>
       (<[("bucket", "notes/todo.txt") := mkObject [Byte.x00] "text/plain"]> ∅))
    [EvLog (LogStart "notes/todo.txt"); EvDone].

End Sample.

Import Sample.

(** ** The classifier and the worker

    The section is parameterised by what the Go libraries bring and the
    file does not define: the UTF-8 decoder and the Unicode case table
    behind [strings.ToLower], and the bitmap font [basicfont.Face7x13]. *)
Section Handler.

(** [utf8.DecodeRuneInString] at a string whose first byte is not ASCII:
    the rune and the number of bytes it takes. *)
Variable DecodeRuneInString : string -> Z * nat.

(** The bytes [strings.Map] writes for [unicode.ToLower r], for a rune
    [r] outside ASCII. *)
Variable lowerRune : Z -> string.

(** [strings.Map(unicode.ToLower, s)]: ASCII bytes are lowered in place
    ([unicode.ToLower] adds ['a' - 'A'] to the runes from 'A' to 'Z'),
    the other runes go through the decoder and the case table. The fuel
    is the number of bytes left. *)
Fixpoint MapToLower (fuel : nat) (s : list ascii) : list ascii :=
  match fuel, s with
  | S fuel', c :: t =>
      if isASCII c then lowerByte c :: MapToLower fuel' t
      else
        let '(r, width) := DecodeRuneInString (str s) in
        bytes (lowerRune r) ++ MapToLower fuel' (drop width s)
  | _, _ => []
  end.

(** [strings.ToLower]: strings of ASCII bytes only take the fast path,
    which rewrites the upper-case bytes; the others go through
    [strings.Map]. *)
Definition ToLower (s : string) : string :=
  if allASCII s then str (map lowerByte (bytes s))
  else str (MapToLower (len s) (bytes s)).

(** *** isImageFile (main.go, lines 54-63) *)

Definition supportedExtensions : list string := [".jpg"; ".jpeg"; ".png"].

(** The [for _, ext := range supportedExtensions] loop. *)
Fixpoint isImageFile_range (key : string) (exts : list string) : bool * string :=
  match exts with
  | ext :: rest =>
      if HasSuffix (ToLower key) ext then (true, sliceFrom 1 ext)
      else isImageFile_range key rest
  | [] => (false, "")
  end.

Definition isImageFile (key : string) : bool * string :=
  isImageFile_range key supportedExtensions.

(** *** addLabel (main.go, lines 31-52) *)

(** [basicfont.Face7x13] *)
Variable Face7x13 : Face.

(** [for _, c := range s]: the runes of a string. *)
Fixpoint rangeRunes (fuel : nat) (s : list ascii) : list Z :=
  match fuel, s with
  | S fuel', c :: t =>
      if isASCII c then code c :: rangeRunes fuel' t
      else
        let '(r, width) := DecodeRuneInString (str s) in
        r :: rangeRunes fuel' (drop width s)
  | _, _ => []
  end.

(** [Drawer.DrawString] *)
Definition DrawString (d : Drawer) (s : string) : Drawer :=
  DrawRunes d (-1) (rangeRunes (len s) (bytes s)).

Definition addLabel (img : Image) (x y : Z) (label : string) : option RGBA :=
  match NewRGBA (Bounds img) with
  | None => None
  | Some rgba =>
      let rgba := Draw_Src rgba (Rect rgba) img (Pt 0 0) in
      let col := mkRGBA 255 0 0 255 in
      let point := Pt (int32 (int64 (x * 64))) (int32 (int64 (y * 64))) in
      let d := mkDrawer rgba col Face7x13 point in
      Some (Dst (DrawString d label))
  end.

(** *** handleImage (main.go, lines 65-128) *)

(** A call of [addLabel], recorded in the trace; a panic inside it
    unwinds the worker. *)
Definition call_addLabel (img : Image) (x y : Z) (label : string) : M RGBA :=
  emit (EvAddLabel x y label) ;;;
  match addLabel img x y label with
  | Some rgba => ret rgba
  | None => panic
  end.

(** Lines 93-101: the label is put at (0, 0) on an image whose
    [bounds.Max] is below 20 in both directions, at (20, 20) otherwise;
    both branches log [bounds.Max.X] twice. *)
Definition labelStep (img : Image) : M RGBA :=
  let bounds := Bounds img in
  if (X (Max bounds) <? 20) && (Y (Max bounds) <? 20)
  then
    labeledImage <- call_addLabel img 0 0 "This is watermark" ;;
    emit (EvLog (LogAddLabel (X (Max bounds)) (X (Max bounds)))) ;;;
    ret labeledImage
  else
    labeledImage <- call_addLabel img 20 20 "This is watermark" ;;
    emit (EvLog (LogAddLabel (X (Max bounds)) (X (Max bounds)))) ;;;
    ret labeledImage.

(** Lines 103-116: [switch ext] over a fresh buffer; the switch has no
    default case. *)
Definition encodeStep (env : Env) (ext : string) (labeledImage : RGBA)
    : M (list Byte.byte) :=
  if String.eqb ext "png" then
    emit (EvEncode PNG) ;;;
    match png_Encode env labeledImage with
    | Some buf => ret buf
    | None => fatal LogEncodeError
    end
  else if String.eqb ext "jpeg" || String.eqb ext "jpg" then
    emit (EvEncode JPEG) ;;;
    match jpeg_Encode env labeledImage with
    | Some buf => ret buf
    | None => fatal LogEncodeError
    end
  else ret [].

Definition handleImage (env : Env) (record : S3EventRecord) : M unit :=
  defer EvDone (
    let s3Entity := S3 record in
    let bucket := Name (Bucket s3Entity) in
    let key := Key (Object s3Entity) in
    emit (EvLog (LogStart key)) ;;;
    let '(isImage, ext) := isImageFile key in
    if negb isImage then ret tt
    else
      resp <- GetObject env bucket key ;;
      match resp with
      | None => fatal (LogUnableToDownload key)
      | Some body =>
          defer EvBodyClose (
            match image_Decode env body with
            | None => fatal (LogUnableToDecode key)
            | Some (img, _) =>
                labeledImage <- labelStep img ;;
                buf <- encodeStep env ext labeledImage ;;
                emit (EvLog LogSaving) ;;;
                failed <- PutObject env
                  (mkPut (Name (Bucket s3Entity))
                         ("labeled-images/" +:+ Base key)
                         buf
                         ("image/" +:+ ext)) ;;
                if failed : bool then fatal (LogFailedToSave key) else ret tt
            end)
      end).

(** The events a worker adds to the trace. *)
Definition workerEvents (env : Env) (record : S3EventRecord) (w : World) : list Event :=
  drop (length (trace w)) (trace (handleImage env record w).2).

(** The ways a worker can go, each with the result of [handleImage], the
    events it adds and the objects it leaves. *)
Inductive Ran (env : Env) (record : S3EventRecord) (w : World)
    : Result unit -> list Event -> gmap (string * string) StoredObject -> Prop :=
| RanSkipped :
    (isImageFile (keyOf record)).1 = false ->
    Ran env record w (Value tt)
      [EvLog (LogStart (keyOf record)); EvDone]
      (objects w)
| RanFetchFailed ext :
    isImageFile (keyOf record) = (true, ext) ->
    getAnswer env w (bucketOf record) (keyOf record) = None ->
    Ran env record w (Exit 1)
      [EvLog (LogStart (keyOf record));
       EvGetObject (bucketOf record) (keyOf record);
       EvLog (LogUnableToDownload (keyOf record))]
      (objects w)
| RanDecodeFailed ext body :
    isImageFile (keyOf record) = (true, ext) ->
    getAnswer env w (bucketOf record) (keyOf record) = Some body ->
    image_Decode env body = None ->
    Ran env record w (Exit 1)
      [EvLog (LogStart (keyOf record));
       EvGetObject (bucketOf record) (keyOf record);
       EvLog (LogUnableToDecode (keyOf record))]
      (objects w)
| RanPanicked ext body img fmt :
    isImageFile (keyOf record) = (true, ext) ->
    getAnswer env w (bucketOf record) (keyOf record) = Some body ->
    image_Decode env body = Some (img, fmt) ->
    addLabel img (anchorOf img) (anchorOf img) "This is watermark" = None ->
    Ran env record w Panic
      [EvLog (LogStart (keyOf record));
       EvGetObject (bucketOf record) (keyOf record);
       EvAddLabel (anchorOf img) (anchorOf img) "This is watermark";
       EvBodyClose; EvDone]
      (objects w)
| RanEncodeFailed ext body img fmt labeled :
    isImageFile (keyOf record) = (true, ext) ->
    getAnswer env w (bucketOf record) (keyOf record) = Some body ->
    image_Decode env body = Some (img, fmt) ->
    addLabel img (anchorOf img) (anchorOf img) "This is watermark" = Some labeled ->
    encoder env (codecOf ext) labeled = None ->
    Ran env record w (Exit 1)
      [EvLog (LogStart (keyOf record));
       EvGetObject (bucketOf record) (keyOf record);
       EvAddLabel (anchorOf img) (anchorOf img) "This is watermark";
       EvLog (LogAddLabel (X (Max (Bounds img))) (X (Max (Bounds img))));
       EvEncode (codecOf ext);
       EvLog LogEncodeError]
      (objects w)
| RanStoreFailed ext body img fmt labeled buf :
    isImageFile (keyOf record) = (true, ext) ->
    getAnswer env w (bucketOf record) (keyOf record) = Some body ->
    image_Decode env body = Some (img, fmt) ->
    addLabel img (anchorOf img) (anchorOf img) "This is watermark" = Some labeled ->
    encoder env (codecOf ext) labeled = Some buf ->
    putRefused env (mkPut (bucketOf record) ("labeled-images/" +:+ Base (keyOf record))
                          buf ("image/" +:+ ext)) = true ->
    Ran env record w (Exit 1)
      [EvLog (LogStart (keyOf record));
       EvGetObject (bucketOf record) (keyOf record);
       EvAddLabel (anchorOf img) (anchorOf img) "This is watermark";
       EvLog (LogAddLabel (X (Max (Bounds img))) (X (Max (Bounds img))));
       EvEncode (codecOf ext);
       EvLog LogSaving;
       EvPutObject (mkPut (bucketOf record) ("labeled-images/" +:+ Base (keyOf record))
                          buf ("image/" +:+ ext));
       EvLog (LogFailedToSave (keyOf record))]
      (objects w)
| RanStored ext body img fmt labeled buf :
    isImageFile (keyOf record) = (true, ext) ->
    getAnswer env w (bucketOf record) (keyOf record) = Some body ->
    image_Decode env body = Some (img, fmt) ->
    addLabel img (anchorOf img) (anchorOf img) "This is watermark" = Some labeled ->
    encoder env (codecOf ext) labeled = Some buf ->
    putRefused env (mkPut (bucketOf record) ("labeled-images/" +:+ Base (keyOf record))
                          buf ("image/" +:+ ext)) = false ->
    Ran env record w (Value tt)
      [EvLog (LogStart (keyOf record));
       EvGetObject (bucketOf record) (keyOf record);
       EvAddLabel (anchorOf img) (anchorOf img) "This is watermark";
       EvLog (LogAddLabel (X (Max (Bounds img))) (X (Max (Bounds img))));
       EvEncode (codecOf ext);
       EvLog LogSaving;
       EvPutObject (mkPut (bucketOf record) ("labeled-images/" +:+ Base (keyOf record))
                          buf ("image/" +:+ ext));
       EvBodyClose; EvDone]
      (<[(bucketOf record, objectKey ("labeled-images/" +:+ Base (keyOf record))) :=
           mkObject buf ("image/" +:+ ext)]> (objects w)).

(** The opaque red of the label. *)
Definition red : RGBAColor := mkRGBA 255 0 0 255.

(** Whether a rendered glyph of the label covers the pixel (px, py) when
    [addLabel] draws [label] at the anchor (x, y) on [img]. *)
Definition labelCovers (img : Image) (x y : Z) (label : string) (px py : Z) : bool :=
  match NewRGBA (Bounds img) with
  | None => false
  | Some rgba =>
      runesCover
        (mkDrawer (Draw_Src rgba (Rect rgba) img (Pt 0 0)) red Face7x13
                  (Pt (int32 (int64 (x * 64))) (int32 (int64 (y * 64)))))
        (-1) (rangeRunes (len label) (bytes label)) px py
  end.

(** *** What is assumed of the UTF-8 decoder and of the case table

    A rune that starts at a byte outside ASCII takes at least one byte,
    takes only bytes outside ASCII, and is itself outside ASCII; what is
    written for its lower-case form is "i", "k", or a non-empty sequence
    of bytes outside ASCII. *)
Hypothesis decode_width : forall c t,
  isASCII c = false ->
  (1 <= (DecodeRuneInString (str (c :: t))).2)%nat
  /\ Forall (fun b => isASCII b = false)
           (take (DecodeRuneInString (str (c :: t))).2 (c :: t)).

Hypothesis decode_rune : forall c t,
  isASCII c = false -> 128 <= (DecodeRuneInString (str (c :: t))).1.

Hypothesis lowerRune_bytes : forall r,
  128 <= r ->
  lowerRune r = "i" \/ lowerRune r = "k"
  \/ (lowerRune r <> "" /\ Forall (fun b => isASCII b = false) (bytes (lowerRune r))).

(** *** Go strings *)

Lemma bytes_str l : bytes (str l) = l.
Proof. apply list_ascii_of_string_of_list_ascii. Qed.

Lemma str_bytes s : str (bytes s) = s.
Proof. apply string_of_list_ascii_of_string. Qed.

Lemma bytes_inj s1 s2 : bytes s1 = bytes s2 -> s1 = s2.
Proof. intros E. rewrite <- (str_bytes s1), <- (str_bytes s2). by rewrite E. Qed.

Lemma bytes_append s1 s2 : bytes (s1 +:+ s2) = bytes s1 ++ bytes s2.
Proof. induction s1 as [|c s1 IH]; simpl; [done | by rewrite IH]. Qed.

Lemma HasSuffix_suffix s e :
  HasSuffix s e = true <-> bytes e `suffix_of` bytes s.
Proof.
  unfold HasSuffix, sliceFrom, len. rewrite andb_true_iff, Nat.leb_le, bool_decide_eq_true.
  split.
  - intros [Hlen Heq]. rewrite <- Heq at 1. rewrite bytes_str. apply suffix_drop.
  - intros [k Hk]. rewrite Hk, length_app. split; [lia |].
    replace (length k + length (bytes e) - length (bytes e))%nat with (length k) by lia.
    rewrite drop_app_length. apply str_bytes.
Qed.

Lemma stable_lowerByte c : stable (lowerByte c) = true -> isASCII c = true.
Proof.
  destruct c as [[] [] [] [] [] [] [] []]; vm_compute; congruence.
Qed.

Lemma stable_ascii c : stable c = true -> isASCII c = true.
Proof. unfold stable. rewrite !andb_true_iff. tauto. Qed.

Lemma stable_lower_fixed c : stable c = true -> lowerByte c = c.
Proof.
  unfold stable, lowerByte. rewrite !andb_true_iff, negb_true_iff.
  intros [[[_ ->] _] _]. done.
Qed.

(** What is written for a rune outside ASCII is not empty and holds no
    stable byte. *)
Lemma lowerRune_unstable r :
  128 <= r ->
  bytes (lowerRune r) <> [] /\ Forall (fun b => stable b = false) (bytes (lowerRune r)).
Proof.
  intros Hr. destruct (lowerRune_bytes r Hr) as [-> | [-> | [Hne Hall]]].
  - split; [done | repeat constructor].
  - split; [done | repeat constructor].
  - split.
    + intros E. apply Hne. apply bytes_inj. by rewrite E.
    + eapply Forall_impl; [exact Hall |]. intros b Hb. simpl in Hb.
      destruct (stable b) eqn:Hs; [| done].
      apply stable_ascii in Hs. congruence.
Qed.

Lemma suffix_past_unstable (e out u : list ascii) :
  Forall (fun b => stable b = true) e ->
  Forall (fun b => stable b = false) out ->
  e `suffix_of` out ++ u -> e `suffix_of` u.
Proof.
  intros He Hout. induction Hout as [|o out Ho _ IH]; simpl; [done |].
  intros Hs. destruct e as [|x e]; [apply suffix_nil |].
  apply suffix_cons_inv in Hs as [E | Hs]; [| by apply IH].
  injection E as -> _. apply Forall_cons in He as [Hx _]. congruence.
Qed.

Lemma MapToLower_ascii fuel s :
  (length s <= fuel)%nat -> forallb isASCII s = true ->
  MapToLower fuel s = map lowerByte s.
Proof.
  revert s. induction fuel as [|fuel IH]; intros [|c t] Hlen Hall; simpl in *; try done; try lia.
  apply andb_true_iff in Hall as [-> Ht]. f_equal. apply IH; [lia | done].
Qed.

Lemma MapToLower_stable_ascii fuel s :
  (length s <= fuel)%nat ->
  Forall (fun b => stable b = true) (MapToLower fuel s) ->
  forallb isASCII s = true.
Proof.
  revert s. induction fuel as [|fuel IH]; intros [|c t] Hlen Hall;
    cbn [MapToLower length forallb] in *; try done; try lia.
  destruct (isASCII c) eqn:Hc; simpl.
  - apply Forall_cons in Hall as [_ Ht]. apply IH; [lia | done].
  - exfalso. pose proof (decode_rune c t Hc) as Hr.
    destruct (DecodeRuneInString (str (c :: t))) as [r width]; simpl in Hr.
    apply Forall_app in Hall as [Hout _].
    destruct (lowerRune_unstable r Hr) as [Hne Hun].
    destruct (bytes (lowerRune r)) as [|o out]; [done |].
    apply Forall_cons in Hout as [Ho _]. apply Forall_cons in Hun as [Ho' _]. congruence.
Qed.

(** For a pattern of stable bytes, a suffix test on the lowered string
    is a suffix test on the string lowered byte by byte. *)
Lemma MapToLower_suffix e fuel s :
  Forall (fun b => stable b = true) e ->
  (length s <= fuel)%nat ->
  e `suffix_of` MapToLower fuel s <-> e `suffix_of` map lowerByte s.
Proof.
  intros He. revert s.
  induction fuel as [|fuel IH]; intros [|c t] Hlen;
    cbn [MapToLower length map] in *; try done; try lia.
  destruct (isASCII c) eqn:Hc.
  - destruct e as [|x e]; [split; intros _; apply suffix_nil |].
    split; intros Hs; apply suffix_cons_inv in Hs as [E | Hs].
    + injection E as -> ->. apply Forall_cons in He as [_ He].
      rewrite (MapToLower_ascii fuel t); [done | lia |].
      apply (MapToLower_stable_ascii fuel); [lia | done].
    + apply suffix_cons_r. apply IH; [lia | done].
    + injection E as -> ->. apply Forall_cons in He as [_ He].
      rewrite (MapToLower_ascii fuel t); [done | lia |].
      apply forallb_forall. intros b Hb.
      apply stable_lowerByte. rewrite Forall_forall in He. apply He.
      apply list_elem_of_In. apply in_map. done.
    + apply suffix_cons_r. apply IH; [lia | done].
  - pose proof (decode_rune c t Hc) as Hr.
    destruct (decode_width c t Hc) as [Hw Htake].
    destruct (DecodeRuneInString (str (c :: t))) as [r width]; simpl in Hr, Hw, Htake.
    destruct (lowerRune_unstable r Hr) as [_ Hun].
    assert (Hdrop : (length (drop width (c :: t)) <= fuel)%nat).
    { rewrite length_drop. simpl. lia. }
    assert (Hsplit : lowerByte c :: map lowerByte t
                     = map lowerByte (take width (c :: t)) ++ map lowerByte (drop width (c :: t))).
    { rewrite <- map_app, take_drop. done. }
    assert (Hun' : Forall (fun b => stable b = false) (map lowerByte (take width (c :: t)))).
    { apply Forall_forall. intros b Hb. apply list_elem_of_In, in_map_iff in Hb as (b0 & <- & Hb0).
      rewrite Forall_forall in Htake. apply list_elem_of_In, Htake in Hb0.
      destruct (stable (lowerByte b0)) eqn:Hs; [| done].
      apply stable_lowerByte in Hs. congruence. }
    rewrite Hsplit. split; intros Hs.
    + apply suffix_app_r. apply (IH _ Hdrop).
      by apply (suffix_past_unstable e (bytes (lowerRune r))).
    + apply suffix_app_r. apply (IH _ Hdrop).
      by apply (suffix_past_unstable e (map lowerByte (take width (c :: t)))).
Qed.

Lemma bytes_ToLower s : bytes (ToLower s) = MapToLower (len s) (bytes s).
Proof.
  unfold ToLower, allASCII, len. destruct (forallb isASCII (bytes s)) eqn:Hall.
  - rewrite bytes_str. symmetry. by apply MapToLower_ascii.
  - apply bytes_str.
Qed.

(** [HasSuffix(ToLower(key), ext)] for a pattern of stable bytes. *)
Lemma HasSuffix_ToLower key ext :
  Forall (fun b => stable b = true) (bytes ext) ->
  HasSuffix (ToLower key) ext = true <-> bytes ext `suffix_of` map lowerByte (bytes key).
Proof.
  intros He. rewrite HasSuffix_suffix, bytes_ToLower.
  apply MapToLower_suffix; [done | unfold len; lia].
Qed.

Lemma endsIgnoringCase_suffix key ext :
  Forall (fun b => stable b = true) (bytes ext) ->
  endsIgnoringCase key ext <-> bytes ext `suffix_of` map lowerByte (bytes key).
Proof.
  intros He.
  assert (Hfix : map lowerByte (bytes ext) = bytes ext).
  { induction He as [|b e Hb _ IH]; simpl; [done |]. by rewrite IH, stable_lower_fixed. }
  split.
  - intros (pre & suf & -> & Hall). rewrite map_app. apply suffix_app_r.
    replace (map lowerByte suf) with (bytes ext); [done |].
    rewrite <- Hfix. clear Hfix He.
    induction Hall as [|c d suf e Hcd _ IH]; simpl; [done |]. by rewrite IH, Hcd.
  - intros [k Hk]. exists (take (length k) (bytes key)), (drop (length k) (bytes key)).
    split; [by rewrite take_drop |].
    assert (Hlen : length (bytes key) = (length k + length (bytes ext))%nat).
    { apply (f_equal length) in Hk. by rewrite length_map, length_app in Hk. }
    assert (Hd : map lowerByte (drop (length k) (bytes key)) = map lowerByte (bytes ext)).
    { rewrite <- (take_drop (length k) (bytes key)), map_app in Hk.
      apply app_inj_1 in Hk as [_ Hk]; [by rewrite Hfix |].
      rewrite length_map, length_take. lia. }
    clear Hk Hfix He. revert Hd. generalize (drop (length k) (bytes key)) (bytes ext).
    induction l as [|c l IH]; intros [|d e] Hd; simpl in *; try done.
    injection Hd as Hcd Hd. constructor; [exact Hcd | by apply IH].
Qed.

(** *** isImageFile *)

Lemma HasSuffix_ends key ext :
  Forall (fun b => stable b = true) (bytes ext) ->
  HasSuffix (ToLower key) ext = true <-> endsIgnoringCase key ext.
Proof.
  intros He. by rewrite HasSuffix_ToLower, endsIgnoringCase_suffix.
Qed.

Lemma supportedExtensions_stable :
  Forall (fun ext => Forall (fun b => stable b = true) (bytes ext)) supportedExtensions.
Proof. repeat constructor. Qed.

(** No key ends in two of the three extensions. *)
Lemma ends_exclusive key e1 e2 :
  Forall (fun b => stable b = true) (bytes e1) ->
  Forall (fun b => stable b = true) (bytes e2) ->
  endsIgnoringCase key e1 -> endsIgnoringCase key e2 ->
  bytes e1 `suffix_of` bytes e2 \/ bytes e2 `suffix_of` bytes e1.
Proof.
  intros H1 H2 E1 E2.
  apply endsIgnoringCase_suffix in E1; [| done].
  apply endsIgnoringCase_suffix in E2; [| done].
  eapply suffix_weak_total; eassumption.
Qed.

Ltac stable_ext := repeat constructor.

Ltac clash E1 E2 :=
  exfalso; simpl in E1, E2;
  match type of E1 with
  | endsIgnoringCase ?k ?a =>
      match type of E2 with
      | endsIgnoringCase _ ?b =>
          let H := fresh in
          assert (H : bytes a `suffix_of` bytes b \/ bytes b `suffix_of` bytes a)
            by (apply (ends_exclusive k a b); [stable_ext | stable_ext | exact E1 | exact E2]);
          apply (bool_decide_pack _) in H; vm_compute in H; exact H
      end
  end.

(** C2. [isImageFile key] is [(true, ext)] exactly when [ext] is "jpg",
    "jpeg" or "png" and the key ends, up to the case of letters, in a
    dot followed by [ext]; it is [(false, "")] exactly when the key ends
    in none of the three. The result is a function of the key alone. *)
Theorem isImageFile_classifies (key : string) :
  (forall ext,
      isImageFile key = (true, ext) <->
      (ext = "jpg" \/ ext = "jpeg" \/ ext = "png")
      /\ endsIgnoringCase key ("." +:+ ext))
  /\ (isImageFile key = (false, "") <->
      ~ (endsIgnoringCase key ".jpg" \/ endsIgnoringCase key ".jpeg"
         \/ endsIgnoringCase key ".png")).
Proof.
  pose proof (HasSuffix_ends key ".jpg" ltac:(stable_ext)) as Hjpg.
  pose proof (HasSuffix_ends key ".jpeg" ltac:(stable_ext)) as Hjpeg.
  pose proof (HasSuffix_ends key ".png" ltac:(stable_ext)) as Hpng.
  unfold isImageFile, supportedExtensions, isImageFile_range.
  destruct (HasSuffix (ToLower key) ".jpg") eqn:E1;
    [| destruct (HasSuffix (ToLower key) ".jpeg") eqn:E2;
       [| destruct (HasSuffix (ToLower key) ".png") eqn:E3]].
  - pose proof (proj1 Hjpg eq_refl) as E1'. split.
    + intros ext. split.
      * intros [= <-]. split; [by left | done].
      * intros [[-> | [-> | ->]] He]; [done | clash E1' He | clash E1' He].
    + split; [done | intros Hn; exfalso; apply Hn; by left].
  - pose proof (proj1 Hjpeg eq_refl) as E2'. split.
    + intros ext. split.
      * intros [= <-]. split; [by right; left | done].
      * intros [[-> | [-> | ->]] He]; [clash He E2' | done | clash E2' He].
    + split; [done | intros Hn; exfalso; apply Hn; by right; left].
  - pose proof (proj1 Hpng eq_refl) as E3'. split.
    + intros ext. split.
      * intros [= <-]. split; [by right; right | done].
      * intros [[-> | [-> | ->]] He]; [clash He E3' | clash He E3' | done].
    + split; [done | intros Hn; exfalso; apply Hn; by right; right].
  - split.
    + intros ext. split; [done |].
      intros [[-> | [-> | ->]] He]; exfalso.
      * apply Hjpg in He. discriminate.
      * apply Hjpeg in He. discriminate.
      * apply Hpng in He. discriminate.
    + split; [| done]. intros _ [He | [He | He]].
      * apply Hjpg in He. discriminate.
      * apply Hjpeg in He. discriminate.
      * apply Hpng in He. discriminate.
Qed.


(** *** The worker, case by case *)

Lemma isImageFile_true_ext key ext :
  isImageFile key = (true, ext) -> ext = "jpg" \/ ext = "jpeg" \/ ext = "png".
Proof.
  unfold isImageFile, supportedExtensions, isImageFile_range.
  destruct (HasSuffix (ToLower key) ".jpg"); [intros [= <-]; by left |].
  destruct (HasSuffix (ToLower key) ".jpeg"); [intros [= <-]; by right; left |].
  destruct (HasSuffix (ToLower key) ".png"); [intros [= <-]; by right; right |].
  discriminate.
Qed.

Lemma isImageFile_false_ext key ext :
  isImageFile key = (false, ext) -> ext = "".
Proof.
  unfold isImageFile, supportedExtensions, isImageFile_range.
  destruct (HasSuffix (ToLower key) ".jpg"); [discriminate |].
  destruct (HasSuffix (ToLower key) ".jpeg"); [discriminate |].
  destruct (HasSuffix (ToLower key) ".png"); [discriminate |].
  by intros [= <-].
Qed.

Lemma labelStep_run img w :
  labelStep img w =
  match addLabel img (anchorOf img) (anchorOf img) "This is watermark" with
  | Some labeled =>
      (Value labeled,
       mkWorld (objects w)
         (trace w ++ [EvAddLabel (anchorOf img) (anchorOf img) "This is watermark";
                      EvLog (LogAddLabel (X (Max (Bounds img))) (X (Max (Bounds img))))]))
  | None =>
      (Panic,
       mkWorld (objects w)
         (trace w ++ [EvAddLabel (anchorOf img) (anchorOf img) "This is watermark"]))
  end.
Proof.
  unfold labelStep, anchorOf, call_addLabel, bind, emit, ret, panic.
  destruct ((X (Max (Bounds img)) <? 20) && (Y (Max (Bounds img)) <? 20));
    cbn [objects trace];
    match goal with |- context [addLabel ?i ?x ?y ?l] => destruct (addLabel i x y l) end;
    cbn [objects trace]; rewrite <- ?app_assoc; reflexivity.
Qed.

Lemma encodeStep_run env ext labeled w :
  ext = "jpg" \/ ext = "jpeg" \/ ext = "png" ->
  encodeStep env ext labeled w =
  match encoder env (codecOf ext) labeled with
  | Some buf =>
      (Value buf, mkWorld (objects w) (trace w ++ [EvEncode (codecOf ext)]))
  | None =>
      (Exit 1, mkWorld (objects w) (trace w ++ [EvEncode (codecOf ext); EvLog LogEncodeError]))
  end.
Proof.
  intros [-> | [-> | ->]]; unfold encodeStep, codecOf, encoder, bind, emit, ret, fatal;
    cbn [String.eqb Ascii.eqb Bool.eqb orb objects trace];
    match goal with |- context [match ?e with Some _ => _ | None => _ end] => destruct e end;
    cbn [objects trace]; rewrite <- ?app_assoc; reflexivity.
Qed.

Lemma getAnswer_objects env w tr bucket key :
  getAnswer env (mkWorld (objects w) tr) bucket key = getAnswer env w bucket key.
Proof. reflexivity. Qed.

Ltac worker_start Hk :=
  unfold handleImage, defer, bind, emit, GetObject, ret, fatal;
  cbv zeta;
  change (Key (Object (S3 ?r))) with (keyOf r);
  change (Name (Bucket (S3 ?r))) with (bucketOf r);
  cbn [objects trace]; rewrite Hk; cbn [negb objects trace fst snd];
  rewrite ?getAnswer_objects.

Lemma handleImage_run env record w :
  exists r tr objs,
    handleImage env record w = (r, mkWorld objs (trace w ++ tr))
    /\ Ran env record w r tr objs.
Proof.
  destruct (isImageFile (keyOf record)) as [[|] ext] eqn:Hk.
  - pose proof (isImageFile_true_ext _ _ Hk) as Hext.
    destruct (getAnswer env w (bucketOf record) (keyOf record)) as [body|] eqn:Hg.
    + destruct (image_Decode env body) as [[img fmt]|] eqn:Hd.
      * destruct (addLabel img (anchorOf img) (anchorOf img) "This is watermark")
          as [labeled|] eqn:Ha.
        -- destruct (encoder env (codecOf ext) labeled) as [buf|] eqn:He.
           ++ destruct (putRefused env
                 (mkPut (bucketOf record) ("labeled-images/" +:+ Base (keyOf record))
                        buf ("image/" +:+ ext))) eqn:Hp.
              ** worker_start Hk. rewrite Hg, Hd, labelStep_run, Ha.
                 rewrite (encodeStep_run _ _ _ _ Hext), He.
                 unfold PutObject. cbn [objects trace PutBucket PutKey PutBody PutContentType].
                 rewrite Hp. cbn [objects trace fst snd].
                 rewrite <- !app_assoc. eexists _, _, _. split; [reflexivity |].
                 eapply RanStoreFailed; eassumption.
              ** worker_start Hk. rewrite Hg, Hd, labelStep_run, Ha.
                 rewrite (encodeStep_run _ _ _ _ Hext), He.
                 unfold PutObject. cbn [objects trace PutBucket PutKey PutBody PutContentType].
                 rewrite Hp. cbn [objects trace fst snd].
                 rewrite <- !app_assoc. eexists _, _, _. split; [reflexivity |].
                 eapply RanStored; eassumption.
           ++ worker_start Hk. rewrite Hg, Hd, labelStep_run, Ha.
              rewrite (encodeStep_run _ _ _ _ Hext), He.
              cbn [objects trace fst snd].
              rewrite <- !app_assoc. eexists _, _, _. split; [reflexivity |].
              eapply RanEncodeFailed; eassumption.
        -- worker_start Hk. rewrite Hg, Hd, labelStep_run, Ha.
           cbn [objects trace fst snd].
           rewrite <- !app_assoc. eexists _, _, _. split; [reflexivity |].
           eapply RanPanicked; eassumption.
      * worker_start Hk. rewrite Hg, Hd. cbn [objects trace fst snd].
        rewrite <- !app_assoc. eexists _, _, _. split; [reflexivity |].
        eapply RanDecodeFailed; eassumption.
    + worker_start Hk. rewrite Hg. cbn [objects trace fst snd].
      rewrite <- !app_assoc. eexists _, _, _. split; [reflexivity |].
      eapply RanFetchFailed; eassumption.
  - worker_start Hk.
    rewrite <- !app_assoc. eexists _, _, _. split; [reflexivity |].
    apply RanSkipped. by rewrite Hk.
Qed.

(** The trace only grows: a worker appends its events. *)
Lemma handleImage_trace env record w :
  trace (handleImage env record w).2 = trace w ++ workerEvents env record w.
Proof.
  unfold workerEvents. destruct (handleImage_run env record w) as (r & tr & objs & -> & _).
  cbn [snd trace]. by rewrite drop_app_length.
Qed.

Lemma handleImage_ran env record w :
  Ran env record w (handleImage env record w).1 (workerEvents env record w)
      (objects (handleImage env record w).2).
Proof.
  unfold workerEvents. destruct (handleImage_run env record w) as (r & tr & objs & -> & Hran).
  cbn [fst snd trace objects]. by rewrite drop_app_length.
Qed.

(** *** path.Base *)

Lemma isSlash_true c : isSlash c = true <-> c = "/"%char.
Proof. apply Ascii.eqb_eq. Qed.

Lemma isSlash_false c : isSlash c = false <-> c <> "/"%char.
Proof. apply Ascii.eqb_neq. Qed.

Lemma untilSlash_noslash rp : Forall (fun c => c <> "/"%char) (untilSlash rp).
Proof.
  induction rp as [|c t IH]; simpl; [constructor |].
  destruct (isSlash c) eqn:Hc; [constructor |].
  constructor; [by apply isSlash_false | done].
Qed.

Lemma untilSlash_split rp :
  exists rest, rp = untilSlash rp ++ rest /\ (rest = [] \/ exists r, rest = "/"%char :: r).
Proof.
  induction rp as [|c t (rest & Ht & Hrest)]; simpl.
  - exists []. split; [done | by left].
  - destruct (isSlash c) eqn:Hc.
    + apply isSlash_true in Hc as ->. exists ("/"%char :: t). split; [done | right; by eexists].
    + exists rest. split; [simpl; by rewrite <- Ht | done].
Qed.

Lemma untilSlash_app l r :
  Forall (fun c => c <> "/"%char) l -> untilSlash (l ++ "/"%char :: r) = l.
Proof.
  induction 1 as [|c l Hc _ IH]; simpl; [done |].
  apply isSlash_false in Hc as ->. by rewrite IH.
Qed.

(** The base of a path that does not end in a slash: what follows its
    last slash. *)
Lemma Base_last key pre c :
  bytes key = pre ++ [c] -> c <> "/"%char ->
  Base key = str (rev (untilSlash (rev (bytes key)))).
Proof.
  intros Hk Hc. unfold Base.
  rewrite bool_decide_eq_false_2; [| by intros ->; destruct pre].
  apply isSlash_false in Hc.
  rewrite Hk, rev_app_distr. cbn [rev app dropSlashes]. rewrite Hc.
  cbn [untilSlash]. rewrite Hc. cbn [rev].
  rewrite bool_decide_eq_false_2; [done |].
  intros E. by apply app_eq_nil in E as [_ ?].
Qed.

Lemma Base_split key pre c :
  bytes key = pre ++ [c] -> c <> "/"%char ->
  exists dir,
    key = dir +:+ Base key
    /\ (dir = "" \/ exists d, dir = d +:+ "/")
    /\ Forall (fun b => b <> "/"%char) (bytes (Base key)).
Proof.
  intros Hk Hc. rewrite (Base_last key pre c Hk Hc).
  destruct (untilSlash_split (rev (bytes key))) as (rest & Hsplit & Hrest).
  exists (str (rev rest)). split; [| split].
  - apply bytes_inj. rewrite bytes_append, !bytes_str, <- rev_app_distr, <- Hsplit.
    by rewrite rev_involutive.
  - destruct Hrest as [-> | [r ->]]; [by left | right].
    exists (str (rev r)). apply bytes_inj. simpl rev.
    by rewrite bytes_append, !bytes_str.
  - rewrite bytes_str. apply Forall_rev, untilSlash_noslash.
Qed.

(** A key the classifier accepts ends in a dot and the extension it is
    given. *)
Lemma isImageFile_true_ends key ext :
  isImageFile key = (true, ext) -> endsIgnoringCase key ("." +:+ ext).
Proof.
  unfold isImageFile, supportedExtensions, isImageFile_range.
  destruct (HasSuffix (ToLower key) ".jpg") eqn:E1;
    [intros [= <-]; apply HasSuffix_ends; [stable_ext | done] |].
  destruct (HasSuffix (ToLower key) ".jpeg") eqn:E2;
    [intros [= <-]; apply HasSuffix_ends; [stable_ext | done] |].
  destruct (HasSuffix (ToLower key) ".png") eqn:E3;
    [intros [= <-]; apply HasSuffix_ends; [stable_ext | done] |].
  discriminate.
Qed.

(** The output key is the input key exactly for the keys of the form
    [labeled-images/<basename>]. *)
Lemma Base_labeled key :
  "labeled-images/" +:+ Base key = key <-> labeledForm key.
Proof.
  split.
  - intros E. exists (Base key). split; [done |].
    unfold Base in *. case_bool_decide as Hempty.
    { subst key. discriminate. }
    case_bool_decide as Hlast.
    { exfalso. rewrite <- E in Hlast. vm_compute in Hlast. discriminate. }
    split.
    + intros E'. apply Hlast. apply (f_equal bytes) in E'. by rewrite bytes_str in E'.
    + rewrite bytes_str. apply Forall_rev, untilSlash_noslash.
  - intros (name & -> & Hne & Hall). f_equal.
    assert (Hb : exists pre c, bytes name = pre ++ [c]).
    { destruct (bytes name) as [|a l] eqn:Hn using rev_ind.
      - exfalso. apply Hne. apply bytes_inj. by rewrite Hn.
      - by exists l, a. }
    destruct Hb as (pre & c & Hn).
    assert (Hc : c <> "/"%char).
    { rewrite Hn in Hall. apply Forall_app in Hall as [_ Hc]. by apply Forall_cons in Hc as [? _]. }
    rewrite (Base_last _ (bytes "labeled-images/" ++ pre) c);
      [| by rewrite bytes_append, Hn, app_assoc | done].
    rewrite bytes_append, rev_app_distr.
    change (rev (bytes "labeled-images/"))
      with ("/"%char :: rev (bytes "labeled-images")).
    rewrite untilSlash_app; [| by apply Forall_rev].
    by rewrite rev_involutive, str_bytes.
Qed.

(** A key the classifier accepts is not empty and does not end in a
    slash. *)
Lemma supported_last key ext :
  isImageFile key = (true, ext) ->
  exists pre c, bytes key = pre ++ [c] /\ c <> "/"%char.
Proof.
  intros Hk. pose proof (isImageFile_true_ext _ _ Hk) as Hext.
apply isImageFile_true_ends in Hk as (pre & suf & Hkey & Hall).
  assert (Hs : exists s c, suf = s ++ [c] /\ lowerByte c = "g"%char).
  { destruct Hext as [-> | [-> | ->]]; simpl in Hall;
      repeat match goal with
             | H : Forall2 _ _ (_ :: _) |- _ =>
                 apply Forall2_cons_inv_r in H as (? & ? & ? & H & ->)
             | H : Forall2 _ _ [] |- _ => apply Forall2_nil_inv_r in H as ->
             end;
      match goal with
      | |- exists s c, ?a :: ?l = _ /\ _ =>
          eexists (removelast (a :: l)), _; split; [reflexivity | assumption]
      end. }
  destruct Hs as (s0 & c & -> & Hc).
  exists (pre ++ s0), c. split; [by rewrite Hkey, app_assoc |].
  intros ->. vm_compute in Hc. discriminate.
Qed.

(** The base of [dir/name] is [name]. *)
Lemma Base_dir dir name :
  name <> "" -> Forall (fun c => c <> "/"%char) (bytes name) ->
  Base (dir +:+ "/" +:+ name) = name.
Proof.
  intros Hne Hall.
  assert (Hb : exists pre c, bytes name = pre ++ [c]).
  { destruct (bytes name) as [|a l] eqn:Hn using rev_ind.
    - exfalso. apply Hne. apply bytes_inj. by rewrite Hn.
    - by exists l, a. }
  destruct Hb as (pre & c & Hn).
  assert (Hc : c <> "/"%char).
  { rewrite Hn in Hall. apply Forall_app in Hall as [_ Hc]. by apply Forall_cons in Hc as [? _]. }
  rewrite (Base_last _ (bytes dir ++ "/"%char :: pre) c);
    [| by rewrite !bytes_append, Hn, <- app_assoc | done].
  rewrite !bytes_append, rev_app_distr. cbn [bytes list_ascii_of_string app].
  change (list_ascii_of_string name) with (bytes name).
  cbn [rev]. rewrite <- app_assoc. cbn [app].
  rewrite untilSlash_app; [| by apply Forall_rev].
  by rewrite rev_involutive, str_bytes.
Qed.

(** *** The path cleaning of the S3 client *)

Lemma splitSlash_noslash b :
  Forall (fun c => c <> "/"%char) b -> splitSlash b = [b].
Proof.
  induction 1 as [|c b Hc _ IH]; cbn [splitSlash]; [done |].
  apply isSlash_false in Hc as ->. by rewrite IH.
Qed.

Lemma splitSlash_nonempty p : splitSlash p <> [].
Proof.
  destruct p as [|c p]; cbn [splitSlash]; [done |].
  destruct (isSlash c); [done |]. by destruct (splitSlash p).
Qed.

Lemma splitSlash_app d t :
  splitSlash (d ++ "/"%char :: t) = splitSlash d ++ splitSlash t.
Proof.
  induction d as [|c d IH]; cbn [app splitSlash].
  - by rewrite (proj2 (isSlash_true "/"%char)).
  - destruct (isSlash c); [by rewrite IH |].
    rewrite IH. destruct (splitSlash d) as [|e rest] eqn:E; [| done].
    by destruct (splitSlash_nonempty d).
Qed.

Lemma cleanElems_snoc rooted e elems :
  realElem e ->
  forall out, cleanElems rooted out (elems ++ [e]) = cleanElems rooted out elems ++ [e].
Proof.
  intros (Hne & _ & Hdot & Hdotdot).
  induction elems as [|x elems IH]; intros out; cbn [app cleanElems].
  - rewrite !bool_decide_eq_false_2 by done. by cbn.
  - repeat case_bool_decide; cbn [orb]; try apply IH.
    + destruct out as [|top out']; [destruct rooted; apply IH |].
      case_bool_decide; apply IH.
Qed.

Lemma joinSlash_snoc elems e :
  joinSlash (elems ++ [e])
  = if bool_decide (elems = []) then e else joinSlash elems ++ "/"%char :: e.
Proof.
  induction elems as [|x elems IH]; [done |].
  rewrite bool_decide_eq_false_2 by done.
  cbn [app joinSlash]. destruct elems as [|y elems]; [done |].
  cbn [app] in *. rewrite IH, bool_decide_eq_false_2 by done.
  by rewrite <- app_assoc.
Qed.

Lemma HasSuffix_slash_last (s : string) pre c :
  bytes s = pre ++ [c] -> c <> "/"%char -> HasSuffix s "/" = false.
Proof.
  intros Hs Hc. destruct (HasSuffix s "/") eqn:E; [| done].
  apply HasSuffix_suffix in E as [k Hk]. rewrite Hs in Hk.
  change (bytes "/") with ["/"%char] in Hk.
  apply app_inj_tail in Hk as [_ ->]. done.
Qed.

(** Cleaning keeps the last element of a key when it is a real one: the
    object reached is named by the cleaned directory part followed by
    that element. *)
Lemma objectKey_bytes key before base :
  "/"%char :: bytes key = before ++ "/"%char :: base ->
  realElem base ->
  bytes (objectKey key)
  = (if bool_decide (cleanElems true [] (splitSlash before) = []) then base
     else joinSlash (cleanElems true [] (splitSlash before)) ++ "/"%char :: base).
Proof.
  intros Hpath Hreal.
  pose proof Hreal as (Hne & Hall & _ & _).
  assert (Hlast : exists b c, base = b ++ [c] /\ c <> "/"%char).
  { destruct base as [|a l] using rev_ind; [done |]. exists l, a. split; [done |].
    apply Forall_app in Hall as [_ Hc]. by apply Forall_cons in Hc as [? _]. }
  destruct Hlast as (b & c & Hb & Hc).
  assert (Hbytes : bytes ("/" +:+ key) = before ++ "/"%char :: base) by exact Hpath.
  unfold objectKey, cleanPath.
  rewrite (HasSuffix_slash_last ("/" +:+ key) (before ++ "/"%char :: b) c);
    [| by rewrite Hbytes, Hb, <- app_assoc | done].
  cbn [andb]. unfold Clean. rewrite Hbytes.
  assert (Hrooted : exists t, before ++ "/"%char :: base = "/"%char :: t).
  { rewrite <- Hpath. by eexists. }
  destruct Hrooted as [t Ht]. rewrite Ht at 1.
  rewrite (proj2 (isSlash_true "/"%char)) by done. cbv zeta.
  rewrite splitSlash_app, (splitSlash_noslash base) by done.
  rewrite cleanElems_snoc by done. rewrite joinSlash_snoc.
  unfold sliceFrom. rewrite bytes_str. cbn [drop]. by rewrite bytes_str.
Qed.

(** The key the worker stores under is clean already. *)
Lemma objectKey_output name :
  realElem (bytes name) ->
  objectKey ("labeled-images/" +:+ name) = "labeled-images/" +:+ name.
Proof.
  intros Hreal. apply bytes_inj.
  rewrite (objectKey_bytes _ (bytes "/labeled-images") (bytes name)); [| | done].
  - by rewrite bytes_append.
  - by rewrite bytes_append.
Qed.

Lemma untilSlash_noslash_id rp :
  Forall (fun c => c <> "/"%char) rp -> untilSlash rp = rp.
Proof.
  induction 1 as [|c rp Hc _ IH]; cbn [untilSlash]; [done |].
  apply isSlash_false in Hc as ->. by rewrite IH.
Qed.

Lemma Base_real name :
  realElem (bytes name) -> Base name = name.
Proof.
  intros (Hne & Hall & _ & _).
  destruct (bytes name) as [|a l] eqn:Hn using rev_ind; [done |].
  assert (Ha : a <> "/"%char).
  { apply Forall_app in Hall as [_ Hc]. by apply Forall_cons in Hc as [? _]. }
  rewrite (Base_last name l a Hn Ha), Hn.
  rewrite untilSlash_noslash_id by by apply Forall_rev.
  rewrite rev_involutive, <- Hn. apply str_bytes.
Qed.

(** A key the classifier accepts ends in a real path element, its base. *)
Lemma supported_base key ext :
  isImageFile key = (true, ext) ->
  realElem (bytes (Base key))
  /\ exists before, "/"%char :: bytes key = before ++ "/"%char :: bytes (Base key).
Proof.
  intros Hk. pose proof (isImageFile_true_ext _ _ Hk) as Hext.
  apply isImageFile_true_ends in Hk as (pre & suf & Hkey & Hall).
  assert (Hs : exists s c, suf = s ++ [c] /\ lowerByte c = "g"%char).
  { destruct Hext as [-> | [-> | ->]]; simpl in Hall;
      repeat match goal with
             | H : Forall2 _ _ (_ :: _) |- _ =>
                 apply Forall2_cons_inv_r in H as (? & ? & ? & H & ->)
             | H : Forall2 _ _ [] |- _ => apply Forall2_nil_inv_r in H as ->
             end;
      match goal with
      | |- exists s c, ?a :: ?l = _ /\ _ =>
          eexists (removelast (a :: l)), _; split; [reflexivity | assumption]
      end. }
  destruct Hs as (s0 & c & -> & Hg).
  assert (Hc : c <> "/"%char) by (intros ->; vm_compute in Hg; discriminate).
  assert (Hdot : c <> "."%char) by (intros ->; vm_compute in Hg; discriminate).
  assert (Hbytes : bytes key = (pre ++ s0) ++ [c]) by by rewrite Hkey, app_assoc.
  destruct (Base_split _ _ _ Hbytes Hc) as (dir & Hdir & Hform & Hnoslash).
  assert (Hbase : exists b, bytes (Base key) = b ++ [c]).
  { rewrite (Base_last _ _ _ Hbytes Hc), Hbytes, rev_app_distr, bytes_str.
    cbn [rev app untilSlash]. apply isSlash_false in Hc as ->. cbn [rev]. by eexists. }
  destruct Hbase as [b Hb].
  split.
  - split; [| split; [done | split]]; rewrite Hb.
    + intros E. by apply app_eq_nil in E as [_ ?].
    + intros E. change dotElem with ([] ++ ["."%char]) in E.
      by apply app_inj_tail in E as [_ ->].
    + intros E. change dotdotElem with (["."%char] ++ ["."%char]) in E.
      by apply app_inj_tail in E as [_ ->].
  - apply (f_equal bytes) in Hdir. rewrite bytes_append in Hdir.
    destruct Hform as [-> | [d ->]].
    + exists []. by rewrite Hdir.
    + exists ("/"%char :: bytes d). rewrite Hdir at 1. rewrite bytes_append.
      cbn [app]. by rewrite <- app_assoc.
Qed.

(** The object reached by a supported key has the base of the key as
    its base. *)
Lemma objectKey_Base key ext :
  isImageFile key = (true, ext) -> Base (objectKey key) = Base key.
Proof.
  intros Hk. destruct (supported_base _ _ Hk) as (Hreal & before & Hpath).
  pose proof (objectKey_bytes _ _ _ Hpath Hreal) as Hobj.
  case_bool_decide.
  - rewrite <- (Base_real (Base key)) at 1 by done. f_equal.
    apply bytes_inj. by rewrite Hobj.
  - destruct Hreal as (Hne & Hall & _ & _).
    rewrite <- (Base_dir (str (joinSlash (cleanElems true [] (splitSlash before)))) (Base key)).
    + f_equal. apply bytes_inj. by rewrite Hobj, !bytes_append, bytes_str.
    + intros E. apply Hne. by rewrite E.
    + done.
Qed.



(** *** What a worker does *)

Ltac worker_cases env record w :=
  let H := fresh "Hran" in
  pose proof (handleImage_ran env record w) as H;
  revert H;
  generalize ((handleImage env record w).1) (workerEvents env record w)
             (objects (handleImage env record w).2);
  intros ? ? ? H; destruct H;
  repeat match goal with
         | H1 : isImageFile ?k = _, H2 : isImageFile ?k = _ |- _ =>
             rewrite H1 in H2; injection H2 as <-
         | H1 : isImageFile ?k = _, H2 : (isImageFile ?k).1 = _ |- _ =>
             rewrite H1 in H2; cbn [fst] in H2
         | H1 : getAnswer ?e ?w ?b ?k = _, H2 : getAnswer ?e ?w ?b ?k = _ |- _ =>
             rewrite H1 in H2
         | H1 : image_Decode ?e ?b = _, H2 : image_Decode ?e ?b = _ |- _ =>
             rewrite H1 in H2
         | H : Some _ = Some _ |- _ => injection H as ?; subst
         | H : (_, _) = (_, _) |- _ => injection H as ? ?; subst
         end;
  try discriminate.

(** C7. A record whose key the classifier rejects is skipped: the
    worker returns normally, sends no request to S3 (no fetch, no store)
    and leaves the objects as they were; it only logs the key. *)
Theorem unsupported_skipped env record w :
  (isImageFile (keyOf record)).1 = false ->
  (handleImage env record w).1 = Value tt
  /\ getCalls (workerEvents env record w) = []
  /\ putCalls (workerEvents env record w) = []
  /\ objects (handleImage env record w).2 = objects w
  /\ workerEvents env record w = [EvLog (LogStart (keyOf record)); EvDone].
Proof.
  intros Hk. worker_cases env record w. done.
Qed.

(** C4. When the key is supported and the worker returns, it has stored
    exactly one object: in the bucket of the record, under
    "labeled-images/" followed by the base name of the key (the key is a
    directory part, empty or ending in a slash, followed by that name,
    which has no slash and keeps its case), with content type "image/"
    followed by the extension of the classifier, one of "jpg", "jpeg"
    and "png", as it is. *)
Theorem stored_object env record w ext :
  isImageFile (keyOf record) = (true, ext) ->
  (handleImage env record w).1 = Value tt ->
  (exists buf,
      putCalls (workerEvents env record w)
      = [mkPut (bucketOf record) ("labeled-images/" +:+ Base (keyOf record))
               buf ("image/" +:+ ext)]
      /\ objects (handleImage env record w).2
         = <[(bucketOf record, "labeled-images/" +:+ Base (keyOf record)) :=
               mkObject buf ("image/" +:+ ext)]> (objects w))
  /\ (ext = "jpg" \/ ext = "jpeg" \/ ext = "png")
  /\ (exists dir,
        keyOf record = dir +:+ Base (keyOf record)
        /\ (dir = "" \/ exists d, dir = d +:+ "/")
        /\ Forall (fun c => c <> "/"%char) (bytes (Base (keyOf record)))).
Proof.
  intros Hk Hret.
  destruct (supported_last _ _ Hk) as (pre & c & Hbytes & Hc).
  pose proof (Base_split _ _ _ Hbytes Hc) as Hsplit.
  pose proof (isImageFile_true_ext _ _ Hk) as Hext.
  destruct (supported_base _ _ Hk) as [Hreal _].
  revert Hret. worker_cases env record w.
  intros _. split; [| done]. eexists. split; [done |].
  by rewrite objectKey_output.
Qed.

(** C10, as the code has it. A worker stores at most once; what it stores
    goes to the bucket of the record under a key that starts with
    "labeled-images/", which is the key of the object written, and no
    other object changes. The object fetched is the one the input key
    reaches once the S3 client has cleaned the path of the request; its
    key is the key written exactly when that cleaned key has the form
    [labeled-images/<basename>], and the object fetched is then replaced
    by the output. *)
Theorem stores_under_prefix env record w :
  (length (putCalls (workerEvents env record w)) <= 1)%nat
  /\ (forall p, p ∈ putCalls (workerEvents env record w) ->
        PutBucket p = bucketOf record
        /\ (exists name, PutKey p = "labeled-images/" +:+ name)
        /\ objectKey (PutKey p) = PutKey p
        /\ (PutKey p = objectKey (keyOf record) <-> labeledForm (objectKey (keyOf record)))
        /\ ((handleImage env record w).1 = Value tt ->
            objects (handleImage env record w).2 !! (PutBucket p, PutKey p)
            = Some (mkObject (PutBody p) (PutContentType p))))
  /\ (forall b k,
        objects (handleImage env record w).2 !! (b, k) <> objects w !! (b, k) ->
        b = bucketOf record /\ exists name, k = "labeled-images/" +:+ name).
Proof.
  assert (Hput : forall ext,
            isImageFile (keyOf record) = (true, ext) ->
            objectKey ("labeled-images/" +:+ Base (keyOf record))
            = "labeled-images/" +:+ Base (keyOf record)
            /\ ("labeled-images/" +:+ Base (keyOf record) = objectKey (keyOf record)
                <-> labeledForm (objectKey (keyOf record)))).
  { intros ext Hk. destruct (supported_base _ _ Hk) as [Hreal _].
    split; [by apply objectKey_output |].
    rewrite <- (objectKey_Base _ _ Hk). apply Base_labeled. }
  worker_cases env record w; cbn [putCalls omap length];
    (split; [cbn; lia |]); (split; [| try (intros b k Hne; by destruct Hne)]);
    try (intros p Hp; by apply elem_of_nil in Hp);
    match goal with
    | Hk : isImageFile (keyOf record) = (true, ?ext) |- _ =>
        destruct (Hput ext Hk) as [Hclean Hform]
    end.
  - intros p Hp. apply list_elem_of_singleton in Hp as ->.
    cbn [PutBucket PutKey PutBody PutContentType].
    split; [done |]. split; [by eexists |]. split; [done |]. split; [done | done].
  - intros p Hp. apply list_elem_of_singleton in Hp as ->.
    cbn [PutBucket PutKey PutBody PutContentType].
    split; [done |]. split; [by eexists |]. split; [done |]. split; [done |].
    intros _. rewrite <- Hclean at 1. apply lookup_insert_eq.
  - intros b k Hne. rewrite Hclean in Hne.
    destruct (decide ((bucketOf record, "labeled-images/" +:+ Base (keyOf record)) = (b, k)))
      as [[= <- <-] | Hother].
    + split; [done | by eexists].
    + exfalso. apply Hne. by apply lookup_insert_ne.
Qed.


(** C8. For a record with a supported key: when the fetch fails, when
    the decoder rejects the body, or when S3 refuses the store, the
    worker ends the process with [os.Exit(1)] instead of returning, and
    the objects are as before; nothing is stored in the first two
    cases. A store is only ever requested for the encoding of the
    labelled, decoded image. *)
Theorem failures_are_fatal env record w ext :
  isImageFile (keyOf record) = (true, ext) ->
  (getAnswer env w (bucketOf record) (keyOf record) = None ->
     (handleImage env record w).1 = Exit 1
     /\ putCalls (workerEvents env record w) = []
     /\ objects (handleImage env record w).2 = objects w)
  /\ (forall body,
        getAnswer env w (bucketOf record) (keyOf record) = Some body ->
        image_Decode env body = None ->
        (handleImage env record w).1 = Exit 1
        /\ putCalls (workerEvents env record w) = []
        /\ objects (handleImage env record w).2 = objects w)
  /\ (forall p,
        p ∈ putCalls (workerEvents env record w) ->
        putRefused env p = true ->
        (handleImage env record w).1 = Exit 1
        /\ objects (handleImage env record w).2 = objects w)
  /\ (forall p,
        p ∈ putCalls (workerEvents env record w) ->
        exists body img fmt labeled,
          getAnswer env w (bucketOf record) (keyOf record) = Some body
          /\ image_Decode env body = Some (img, fmt)
          /\ addLabel img (anchorOf img) (anchorOf img) "This is watermark" = Some labeled
          /\ encoder env (codecOf ext) labeled = Some (PutBody p)).
Proof.
  intros Hk.
  worker_cases env record w; cbn [putCalls omap];
    (split; [intros Hg; try congruence; done |]);
    (split; [intros body0 Hg Hd; try congruence; done |]);
    (split; intros p Hp; [intros Hr |]);
    try (by apply elem_of_nil in Hp);
    apply list_elem_of_singleton in Hp as ->; cbn [PutBody] in *;
    try congruence; try done; by eexists _, _, _, _.
Qed.

Lemma handleImage_withFormatNames f env record w :
  handleImage (withFormatNames f env) record w = handleImage env record w.
Proof.
  unfold handleImage, defer, bind, emit, GetObject, ret, fatal. cbv zeta.
  cbn [objects trace].
  destruct (isImageFile (Key (Object (S3 record)))) as [[|] ext]; cbn [negb]; [| done].
  change (getAnswer (withFormatNames f env)) with (getAnswer env).
  destruct (getAnswer env _ _ _) as [body|]; [| done].
  change (image_Decode (withFormatNames f env) body)
    with (match image_Decode env body with
          | Some (img, fmt) => Some (img, f body fmt)
          | None => None
          end).
  destruct (image_Decode env body) as [[img fmt]|]; done.
Qed.

(** C5. For a record with a supported key, whatever is stored was
    encoded by the encoder of the key's extension: the PNG encoder for
    "png", the JPEG encoder for "jpeg" and "jpg", and no other encoder
    ran. The format name found by [image.Decode] plays no part: with any
    other names the worker does the same. *)
Theorem codec_follows_extension env record w ext :
  isImageFile (keyOf record) = (true, ext) ->
  (forall p,
      p ∈ putCalls (workerEvents env record w) ->
      exists labeled,
        (ext = "png" ->
         encodeCalls (workerEvents env record w) = [PNG]
         /\ png_Encode env labeled = Some (PutBody p))
        /\ (ext = "jpeg" \/ ext = "jpg" ->
            encodeCalls (workerEvents env record w) = [JPEG]
            /\ jpeg_Encode env labeled = Some (PutBody p)))
  /\ (forall f, handleImage (withFormatNames f env) record w = handleImage env record w).
Proof.
  intros Hk. split; [| intros f; apply handleImage_withFormatNames].
  worker_cases env record w; cbn [putCalls encodeCalls omap];
    intros p Hp; try (by apply elem_of_nil in Hp);
    apply list_elem_of_singleton in Hp as ->; cbn [PutBody];
    exists labeled; (split; [intros -> | intros [-> | ->]]); by split.
Qed.

(** C1. For a record with a supported key whose object is fetched and
    decoded into an image with bounds starting at (0, 0), as the
    decoders of [image/jpeg] and [image/png] produce them: [addLabel] is
    called once, with the label "This is watermark", at (0, 0) when the
    width and the height are both below 20 and at (20, 20) when one of
    them is 20 or more. *)
Theorem label_placement env record w ext body img fmt :
  isImageFile (keyOf record) = (true, ext) ->
  getAnswer env w (bucketOf record) (keyOf record) = Some body ->
  image_Decode env body = Some (img, fmt) ->
  Min (Bounds img) = Pt 0 0 ->
  (Dx (Bounds img) < 20 /\ Dy (Bounds img) < 20 ->
   addLabelCalls (workerEvents env record w) = [(0, 0, "This is watermark")])
  /\ (20 <= Dx (Bounds img) \/ 20 <= Dy (Bounds img) ->
      addLabelCalls (workerEvents env record w) = [(20, 20, "This is watermark")]).
Proof.
  intros Hk Hg Hd Hmin.
  assert (Hsmall : Dx (Bounds img) < 20 /\ Dy (Bounds img) < 20 -> anchorOf img = 0).
  { unfold Dx, Dy, anchorOf. rewrite Hmin. cbn [X Y]. intros [? ?].
    rewrite !Z.sub_0_r in *.
    destruct (Z.ltb_spec (X (Max (Bounds img))) 20); [| lia].
    destruct (Z.ltb_spec (Y (Max (Bounds img))) 20); [done | lia]. }
  assert (Hlarge : 20 <= Dx (Bounds img) \/ 20 <= Dy (Bounds img) -> anchorOf img = 20).
  { unfold Dx, Dy, anchorOf. rewrite Hmin. cbn [X Y]. intros Hor.
    rewrite !Z.sub_0_r in *.
    destruct (Z.ltb_spec (X (Max (Bounds img))) 20); [| done].
    destruct (Z.ltb_spec (Y (Max (Bounds img))) 20); [lia | done]. }
  worker_cases env record w; cbn [addLabelCalls omap];
    (split; intros Hsize; [rewrite (Hsmall Hsize) | rewrite (Hlarge Hsize)]); done.
Qed.

(** C3, as the code has it. For an extension that is none of "png",
    "jpeg" and "jpg", the encode step does not fail: no encoder runs,
    the buffer stays empty and the step returns. The classifier never
    gives such an extension to the worker. *)
Theorem encodeStep_unsupported env ext labeled w :
  ext <> "png" -> ext <> "jpeg" -> ext <> "jpg" ->
  encodeStep env ext labeled w = (Value [], w)
  /\ (forall key, isImageFile key <> (true, ext)).
Proof.
  intros Hpng Hjpeg Hjpg. split.
  - unfold encodeStep.
    apply String.eqb_neq in Hpng as ->.
    apply String.eqb_neq in Hjpeg as ->.
    apply String.eqb_neq in Hjpg as ->. done.
  - intros key Hk. apply isImageFile_true_ext in Hk as [-> | [-> | ->]]; done.
Qed.


(** *** addLabel *)

Lemma Draw_Src_Rect dst r src sp : Rect (Draw_Src dst r src sp) = Rect dst.
Proof. unfold Draw_Src. by destruct (Empty _). Qed.

Lemma DrawMask_Over_Rect dst r c mask mp : Rect (DrawMask_Over dst r c mask mp) = Rect dst.
Proof. unfold DrawMask_Over. by destruct (Empty _). Qed.

Lemma DrawRunes_Rect cs : forall d prevC, Rect (Dst (DrawRunes d prevC cs)) = Rect (Dst d).
Proof.
  induction cs as [|c cs IH]; intros d prevC; cbn [DrawRunes]; [done |].
  destruct (Glyph (TheFace d) _ c) as [[[[dr mask] maskp] advance]|];
    rewrite IH; cbn [Dst]; [apply DrawMask_Over_Rect | done].
Qed.

(** A pixel of the mask that is fully set puts the red of the label,
    whatever was there. *)
Lemma glyphOver_red d : glyphOver red 255 d = red.
Proof.
  unfold glyphOver, red. cbn [cR cG cB cA Z.eqb].
  replace (uint32 ((65535 - 255 * 257 * Z.lor 255 (Z.shiftl 255 8) / 65535) * 257))
    with 0 by reflexivity.
  rewrite !Z.mul_0_r. reflexivity.
Qed.

Lemma glyphOver_clear c d : glyphOver c 0 d = d.
Proof. reflexivity. Qed.

Lemma DrawMask_Over_pixel dst r mask mp x y :
  (forall mx my, APix mask mx my = 0 \/ APix mask mx my = 255) ->
  Pix (DrawMask_Over dst r red mask mp) x y = Pix dst x y
  \/ Pix (DrawMask_Over dst r red mask mp) x y = red.
Proof.
  intros Hbin. unfold DrawMask_Over. cbv zeta.
  destruct (Empty _); [by left |]. cbn [Pix].
  destruct (inRect x y _); [| by left].
  destruct (Hbin (X mp + (x - X (Min r))) (Y mp + (y - Y (Min r)))) as [-> | ->].
  - left. apply glyphOver_clear.
  - right. apply glyphOver_red.
Qed.

(** Drawing a string in red with a bitmap font leaves every pixel as it
    was or makes it red. *)
Lemma DrawRunes_pixel cs x y :
  forall d prevC,
    binaryFace (TheFace d) -> Src d = red ->
    Pix (Dst (DrawRunes d prevC cs)) x y = Pix (Dst d) x y
    \/ Pix (Dst (DrawRunes d prevC cs)) x y = red.
Proof.
  induction cs as [|c cs IH]; intros d prevC Hface Hsrc; cbn [DrawRunes]; [by left |].
  destruct (Glyph (TheFace d) _ c) as [[[[dr mask] maskp] advance]|] eqn:Hg.
  - match goal with
    | |- context [DrawRunes ?d' ?p cs] => destruct (IH d' p Hface Hsrc) as [-> | ->]
    end; [| by right].
    cbn [Dst]. rewrite Hsrc. apply DrawMask_Over_pixel. eapply Hface, Hg.
  - match goal with
    | |- context [DrawRunes ?d' ?p cs] => destruct (IH d' p Hface Hsrc) as [-> | ->]
    end; [by left | by right].
Qed.

(** Copying from the source point (0, 0) copies an image in place when
    its bounds start at the origin. *)
Lemma Draw_Src_origin rgba img x y :
  Min (Bounds img) = Pt 0 0 ->
  Rect rgba = Bounds img ->
  inRect x y (Bounds img) = true ->
  Pix (Draw_Src rgba (Rect rgba) img (Pt 0 0)) x y = rgbaModel (At img x y).
Proof.
  intros Hmin Hrect Hin. unfold Draw_Src. cbv zeta. rewrite Hrect.
  destruct img as [[[x0 y0] [x1 y1]] at_]. cbn [Bounds Min Max] in *.
  injection Hmin as -> ->.
  unfold inRect in Hin. cbn [Min Max X Y] in Hin.
  apply andb_true_iff in Hin as [Hin Hy1]. apply andb_true_iff in Hin as [Hin Hy0].
  apply andb_true_iff in Hin as [Hx0 Hx1].
  apply Z.leb_le in Hx0, Hy0. apply Z.ltb_lt in Hx1, Hy1.
  assert (E1 : Intersect (mkRect (Pt 0 0) (Pt x1 y1)) (mkRect (Pt 0 0) (Pt x1 y1))
               = mkRect (Pt 0 0) (Pt x1 y1)).
  { unfold Intersect, Empty. cbn [Min Max X Y].
    rewrite !Z.max_id, !Z.min_id.
    destruct (Z.leb_spec x1 0); [lia |]. destruct (Z.leb_spec y1 0); [lia | done]. }
  assert (E2 : Rect_Add (mkRect (Pt 0 0) (Pt x1 y1)) (Point_Sub (Pt 0 0) (Pt 0 0))
               = mkRect (Pt 0 0) (Pt x1 y1)).
  { unfold Rect_Add, Point_Add, Point_Sub. cbn [Min Max X Y]. by rewrite !Z.add_0_r. }
  rewrite E1, E2, E1.
  unfold Empty, inRect. cbn [Min Max X Y Pix Bounds At].
  destruct (Z.leb_spec x1 0); [lia |]. destruct (Z.leb_spec y1 0); [lia |]. cbn [orb Pix].
  destruct (Z.leb_spec 0 x); [| lia]. destruct (Z.ltb_spec x x1); [| lia].
  destruct (Z.leb_spec 0 y); [| lia]. destruct (Z.ltb_spec y y1); [| lia].
  cbn [andb]. by rewrite !Z.sub_0_r.
Qed.

(** X12. For an image whose bounds start at the origin, [addLabel] gives
    an image with the same bounds in which every pixel is the input pixel,
    in the RGBA colour model, or the red of the label. *)
Lemma addLabel_origin img x y label rgba :
  binaryFace Face7x13 ->
  Min (Bounds img) = Pt 0 0 ->
  addLabel img x y label = Some rgba ->
  Rect rgba = Bounds img
  /\ forall px py,
       inRect px py (Bounds img) = true ->
       Pix rgba px py = rgbaModel (At img px py) \/ Pix rgba px py = red.
Proof.
  intros Hface Hmin. unfold addLabel, NewRGBA.
  destruct (_ && _); [| discriminate]. cbv zeta. intros [= <-]. split.
  - unfold DrawString. rewrite DrawRunes_Rect. cbn [Dst]. by rewrite Draw_Src_Rect.
  - intros px py Hin. unfold DrawString.
    match goal with
    | |- context [DrawRunes ?d ?p ?cs] =>
        destruct (DrawRunes_pixel cs px py d p Hface eq_refl) as [-> | ->]
    end; [left | by right].
    cbn [Dst]. by apply Draw_Src_origin.
Qed.

Lemma DrawMask_Over_covers dst r mask mp x y :
  (forall mx my, APix mask mx my = 0 \/ APix mask mx my = 255) ->
  Pix (DrawMask_Over dst r red mask mp) x y
  = if glyphCovers dst r mask mp x y then red else Pix dst x y.
Proof.
  intros Hbin. unfold DrawMask_Over, glyphCovers. cbv zeta.
  destruct (Empty _); [done |]. cbn [Pix negb andb].
  destruct (inRect x y _); [| done]. cbn [andb].
  destruct (Hbin (X mp + (x - X (Min r))) (Y mp + (y - Y (Min r)))) as [-> | ->].
  - apply glyphOver_clear.
  - apply glyphOver_red.
Qed.

(** Drawing a string in red with a bitmap font: a pixel that a glyph
    covers is red, any other pixel is as it was. *)
Lemma DrawRunes_covers cs x y :
  forall d prevC,
    binaryFace (TheFace d) -> Src d = red ->
    Pix (Dst (DrawRunes d prevC cs)) x y
    = if runesCover d prevC cs x y then red else Pix (Dst d) x y.
Proof.
  induction cs as [|c cs IH]; intros d prevC Hface Hsrc; cbn [DrawRunes runesCover]; [done |].
  destruct (Glyph (TheFace d) _ c) as [[[[dr mask] maskp] advance]|] eqn:Hg.
  - rewrite IH by done. cbn [Dst]. rewrite Hsrc.
    rewrite DrawMask_Over_covers by (eapply Hface, Hg).
    destruct (glyphCovers _ _ _ _ _ _), (runesCover _ _ _ _ _); done.
  - by rewrite IH.
Qed.

(** C6. For an image whose bounds start at (0, 0), as every decoded
    image has them, and whose pixel buffer can be allocated, for every
    anchor and every label: [addLabel] returns an image, built in a
    buffer of its own ([image.NewRGBA]) and so without writing the input,
    whose bounds are those of the input and in which a pixel covered by
    a rendered glyph of the label is the opaque red (255, 0, 0, 255) and
    every other pixel is the input pixel, in the RGBA colour model of
    the output. The masks of the bitmap font hold 0 and 255 only. *)
Theorem addLabel_frame img x y label :
  binaryFace Face7x13 ->
  Min (Bounds img) = Pt 0 0 ->
  0 <= Dx (Bounds img) -> 0 <= Dy (Bounds img) ->
  4 * Dx (Bounds img) * Dy (Bounds img) <= maxInt ->
  exists rgba,
    addLabel img x y label = Some rgba
    /\ Rect rgba = Bounds img
    /\ forall px py,
         inRect px py (Bounds img) = true ->
         Pix rgba px py
         = if labelCovers img x y label px py then mkRGBA 255 0 0 255
           else rgbaModel (At img px py).
Proof.
  intros Hface Hmin Hdx Hdy Hsize.
  unfold addLabel, labelCovers, NewRGBA.
  destruct (Z.leb_spec 0 (Dx (Bounds img))); [| lia].
  destruct (Z.leb_spec 0 (Dy (Bounds img))); [| lia].
  destruct (Z.leb_spec (4 * Dx (Bounds img) * Dy (Bounds img)) maxInt); [| lia].
  cbn [andb]. cbv zeta. eexists. split; [reflexivity |]. split.
  - unfold DrawString. rewrite DrawRunes_Rect. cbn [Dst]. by rewrite Draw_Src_Rect.
  - intros px py Hin. unfold DrawString.
    rewrite DrawRunes_covers by done. cbn [Dst].
    destruct (runesCover _ _ _ _ _); [done |].
    by apply Draw_Src_origin.
Qed.

(** Outside the handler: an image whose bounds start at (1, 0), which no
    decoder produces. [addLabel] with the empty label, which draws no
    glyph, returns an image with the bounds of the input in which pixel
    (1, 0) is transparent black although the input pixel is white, and
    pixel (2, 0) holds the input pixel of (1, 0): the copy starts at the
    source point (0, 0) and not at the corner of the bounds. *)
Lemma addLabel_shifted_source x y :
  exists rgba,
    addLabel shiftedImage x y "" = Some rgba
    /\ Rect rgba = Bounds shiftedImage
    /\ inRect 1 0 (Bounds shiftedImage) = true
    /\ inRect 2 0 (Bounds shiftedImage) = true
    /\ rgbaModel (At shiftedImage 1 0) = mkRGBA 255 255 255 255
    /\ rgbaModel (At shiftedImage 2 0) = mkRGBA 0 0 0 255
    /\ Pix rgba 1 0 = mkRGBA 0 0 0 0
    /\ Pix rgba 2 0 = mkRGBA 255 255 255 255.
Proof.
  eexists. split; [reflexivity |]. repeat split.
Qed.

(** *** More on the classifier *)

(** The classifier looks at the key through its suffix tests only. *)
Lemma isImageFile_congr key1 key2 :
  (forall ext, ext ∈ supportedExtensions ->
     bytes ext `suffix_of` map lowerByte (bytes key1)
     <-> bytes ext `suffix_of` map lowerByte (bytes key2)) ->
  isImageFile key1 = isImageFile key2.
Proof.
  intros Hsame.
  assert (Heq : forall ext, ext ∈ supportedExtensions ->
            Forall (fun b => stable b = true) (bytes ext) ->
            HasSuffix (ToLower key1) ext = HasSuffix (ToLower key2) ext).
  { intros ext Hin Hst.
    pose proof (HasSuffix_ToLower key1 ext Hst) as H1.
    pose proof (HasSuffix_ToLower key2 ext Hst) as H2.
    pose proof (Hsame ext Hin) as H3.
    destruct (HasSuffix (ToLower key1) ext), (HasSuffix (ToLower key2) ext); try done.
    - symmetry. apply H2, H3, H1. done.
    - apply H1, H3, H2. done. }
  unfold isImageFile, supportedExtensions, isImageFile_range.
  rewrite (Heq ".jpg"), (Heq ".jpeg"), (Heq ".png");
    first [done | stable_ext | unfold supportedExtensions; set_solver].
Qed.

Lemma suffix_short_tail (e a b : list ascii) :
  (length e <= length b)%nat -> e `suffix_of` a ++ b <-> e `suffix_of` b.
Proof.
  intros Hlen. split; [| apply suffix_app_r].
  intros He. destruct (suffix_weak_total e b (a ++ b) He) as [H | H];
    [by apply suffix_app_r | done |].
  rewrite (suffix_length_eq _ _ H Hlen). done.
Qed.

(** X1. Only the last five bytes of a key matter: in front of a key of
    five bytes or more, any prefix (a directory, a bucket path) leaves
    the classification as it is. *)
Theorem isImageFile_prefix (pre key : string) :
  (5 <= len key)%nat -> isImageFile (pre +:+ key) = isImageFile key.
Proof.
  intros Hlen. apply isImageFile_congr. intros ext Hin.
  rewrite bytes_append, map_app. apply suffix_short_tail.
  rewrite length_map. unfold len in Hlen.
  unfold supportedExtensions in Hin.
  apply elem_of_cons in Hin as [-> | Hin]; [cbn; lia |].
  apply elem_of_cons in Hin as [-> | Hin]; [cbn; lia |].
  apply list_elem_of_singleton in Hin as ->. cbn; lia.
Qed.

(** X2. A key of fewer than four bytes, the empty key among them, is
    never an image. *)
Theorem isImageFile_short (key : string) :
  (len key < 4)%nat -> isImageFile key = (false, "").
Proof.
  intros Hlen.
  assert (Hno : forall ext, (4 <= length (bytes ext))%nat ->
            Forall (fun b => stable b = true) (bytes ext) ->
            HasSuffix (ToLower key) ext = false).
  { intros ext Hext Hst. destruct (HasSuffix (ToLower key) ext) eqn:E; [| done].
    apply HasSuffix_ToLower in E; [| done].
    apply suffix_length in E. rewrite length_map in E. unfold len in Hlen. lia. }
  unfold isImageFile, supportedExtensions, isImageFile_range.
  rewrite (Hno ".jpg"), (Hno ".jpeg"), (Hno ".png"); first [done | stable_ext | cbn; lia].
Qed.

Lemma lowerByte_slash c : lowerByte c = "/"%char <-> c = "/"%char.
Proof.
  split; [| by intros ->].
  destruct c as [[] [] [] [] [] [] [] []]; vm_compute; congruence.
Qed.

Lemma suffix_past_slash (e d tail : list ascii) :
  Forall (fun c => c <> "/"%char) e ->
  e `suffix_of` d ++ "/"%char :: tail <-> e `suffix_of` tail.
Proof.
  intros He. split; [| intros H; by apply suffix_app_r, suffix_cons_r].
  intros H.
  destruct (suffix_weak_total e ("/"%char :: tail) (d ++ "/"%char :: tail) H) as [H1 | H1];
    [by apply suffix_app_r | |].
  - destruct e as [|x e]; [apply suffix_nil |].
    apply suffix_cons_inv in H1 as [[= -> _] | H1]; [| done].
    by apply Forall_cons in He as [? _].
  - exfalso. destruct H1 as [k ->].
    apply Forall_app in He as [_ He]. by apply Forall_cons in He as [? _].
Qed.

(** X3. The object a worker stores is itself a supported key with the
    same extension, and its own output key is that same key: a record
    for the output is processed like the input and written over
    itself. *)
Theorem output_key_is_fixed (key ext : string) :
  isImageFile key = (true, ext) ->
  isImageFile ("labeled-images/" +:+ Base key) = (true, ext)
  /\ "labeled-images/" +:+ Base ("labeled-images/" +:+ Base key)
     = "labeled-images/" +:+ Base key.
Proof.
  intros Hk.
  destruct (supported_last _ _ Hk) as (pre & c & Hbytes & Hc).
  destruct (Base_split _ _ _ Hbytes Hc) as (dir & Hdir & Hform & Hnoslash).
  assert (Hne : Base key <> "").
  { rewrite (Base_last _ _ _ Hbytes Hc), Hbytes, rev_app_distr.
    cbn [rev app untilSlash]. apply isSlash_false in Hc as ->.
    intros E. apply (f_equal bytes) in E. rewrite bytes_str in E. cbn in E.
    by apply app_eq_nil in E as [_ ?]. }
  split.
  - rewrite <- Hk. rewrite Hdir at 2. apply isImageFile_congr. intros e He.
    assert (Hslashfree : Forall (fun c => c <> "/"%char) (bytes e)).
    { unfold supportedExtensions in He.
      apply elem_of_cons in He as [-> | He]; [repeat constructor; discriminate |].
      apply elem_of_cons in He as [-> | He]; [repeat constructor; discriminate |].
      apply list_elem_of_singleton in He as ->. repeat constructor; discriminate. }
    rewrite !bytes_append, !map_app.
    change (map lowerByte (bytes "labeled-images/"))
      with (bytes "labeled-images" ++ ["/"%char]).
    rewrite <- app_assoc. cbn [app]. rewrite suffix_past_slash; [| done].
    destruct Hform as [-> | [d ->]]; [done |].
    rewrite bytes_append, map_app.
    change (map lowerByte (bytes "/")) with ["/"%char].
    rewrite <- app_assoc. cbn [app]. by rewrite suffix_past_slash.
  - apply Base_labeled. exists (Base key). done.
Qed.

(** *** More on the worker *)

(** Two runs of a worker on the same record that get the same answer
    from S3 go the same way. *)
Lemma Ran_agree env record w1 w2 r1 r2 tr1 tr2 o1 o2 :
  getAnswer env w1 (bucketOf record) (keyOf record)
  = getAnswer env w2 (bucketOf record) (keyOf record) ->
  Ran env record w1 r1 tr1 o1 ->
  Ran env record w2 r2 tr2 o2 ->
  r1 = r2 /\ tr1 = tr2
  /\ ((o1 = objects w1 /\ o2 = objects w2)
      \/ exists buf ext,
           o1 = <[(bucketOf record, objectKey ("labeled-images/" +:+ Base (keyOf record))) :=
                    mkObject buf ("image/" +:+ ext)]> (objects w1)
           /\ o2 = <[(bucketOf record, objectKey ("labeled-images/" +:+ Base (keyOf record))) :=
                       mkObject buf ("image/" +:+ ext)]> (objects w2)).
Proof.
  intros Hsame H1 H2.
  destruct H1; destruct H2;
    repeat match goal with
           | H1 : isImageFile ?k = _, H2 : isImageFile ?k = _ |- _ =>
               rewrite H1 in H2; injection H2 as <-
           | H1 : isImageFile ?k = _, H2 : (isImageFile ?k).1 = _ |- _ =>
               rewrite H1 in H2; cbn [fst] in H2
           | H1 : getAnswer ?e w1 ?b ?k = _, H2 : getAnswer ?e w2 ?b ?k = _ |- _ =>
               rewrite Hsame, H2 in H1; clear Hsame
           | H1 : image_Decode ?e ?b = _, H2 : image_Decode ?e ?b = _ |- _ =>
               rewrite H1 in H2
           | H1 : addLabel ?i ?x ?y ?l = _, H2 : addLabel ?i ?x ?y ?l = _ |- _ =>
               rewrite H1 in H2
           | H1 : encoder ?e ?c ?l = _, H2 : encoder ?e ?c ?l = _ |- _ =>
               rewrite H1 in H2
           | H1 : putRefused ?e ?p = _, H2 : putRefused ?e ?p = _ |- _ =>
               rewrite H1 in H2
           | H : Some _ = Some _ |- _ => injection H as ?; subst
           | H : (_, _) = (_, _) |- _ => injection H as ? ?; subst
           end;
    try discriminate;
    (split; [done |]); (split; [done |]);
    first [left; by split | right; by eexists _, _].
Qed.

(** X4. A worker reads one object only, the one its key reaches once
    the S3 client has cleaned the path: in two stores that hold the same
    object (or none) under the bucket of the record and that cleaned key,
    it ends the same way and does the same things. *)
Theorem reads_only_its_object env record w1 w2 :
  objects w1 !! (bucketOf record, objectKey (keyOf record))
  = objects w2 !! (bucketOf record, objectKey (keyOf record)) ->
  (handleImage env record w1).1 = (handleImage env record w2).1
  /\ workerEvents env record w1 = workerEvents env record w2.
Proof.
  intros Hobj.
  assert (Hsame : getAnswer env w1 (bucketOf record) (keyOf record)
                  = getAnswer env w2 (bucketOf record) (keyOf record)).
  { unfold getAnswer. by rewrite Hobj. }
  destruct (Ran_agree _ _ _ _ _ _ _ _ _ _ Hsame
              (handleImage_ran env record w1) (handleImage_ran env record w2))
    as (Hr & Htr & _).
  done.
Qed.

(** X5. Processing a record again changes nothing: unless the object
    its key reaches (the key as the S3 client cleans it) has a key of the
    form [labeled-images/<basename>], a second run of the worker, on the
    store the first one left, ends the same way, does the same things
    and leaves the store as it found it. *)
Theorem reprocessing_is_idempotent env record w :
  ~ labeledForm (objectKey (keyOf record)) ->
  (handleImage env record (handleImage env record w).2).1 = (handleImage env record w).1
  /\ workerEvents env record (handleImage env record w).2 = workerEvents env record w
  /\ objects (handleImage env record (handleImage env record w).2).2
     = objects (handleImage env record w).2.
Proof.
  intros Hform.
  pose proof (handleImage_ran env record w) as H1.
  pose proof (handleImage_ran env record (handleImage env record w).2) as H2.
  assert (Hsame : getAnswer env (handleImage env record w).2 (bucketOf record) (keyOf record)
                  = getAnswer env w (bucketOf record) (keyOf record)).
  { unfold getAnswer. destruct (getRefused env _ _); [done |]. f_equal.
    revert H1. generalize ((handleImage env record w).1) (workerEvents env record w).
    intros r tr H1. destruct H1; try done.
    apply lookup_insert_ne. intros [= E]. apply Hform.
    match goal with
    | Hk : isImageFile (keyOf record) = (true, _) |- _ =>
        destruct (supported_base _ _ Hk) as [Hreal _];
        rewrite objectKey_output in E by done;
        rewrite <- (objectKey_Base _ _ Hk) in E
    end.
    by apply Base_labeled. }
  destruct (Ran_agree _ _ _ _ _ _ _ _ _ _ Hsame H2 H1) as (Hr & Htr & Hobjs).
  split; [done |]. split; [done |].
  destruct Hobjs as [[-> _] | (buf & ext & -> & Heq)]; [done |].
  rewrite Heq at 2. rewrite Heq. by rewrite insert_insert_eq.
Qed.

(** X6. For a supported key the fetch comes first and once: the events
    start with the log line and the [GetObject] of the record's bucket
    and key, and there is no other [GetObject] and no [PutObject] before
    it. *)
Theorem fetches_first_and_once env record w ext :
  isImageFile (keyOf record) = (true, ext) ->
  exists rest,
    workerEvents env record w
    = (EvLog (LogStart (keyOf record))
       :: EvGetObject (bucketOf record) (keyOf record) :: rest)
    /\ getCalls rest = [].
Proof.
  intros Hk. worker_cases env record w; by eexists.
Qed.

Ltac not_among :=
  let Hin := fresh "Hin" in
  let Heq := fresh "Heq" in
  intros Hin;
  repeat (apply elem_of_cons in Hin as [Heq | Hin]; [discriminate Heq |]);
  by apply elem_of_nil in Hin.

(** X7. The deferred calls: when the worker ends the process, neither
    [wg.Done] nor [Body.Close] has run, and the exit code is 1; when it
    returns, [wg.Done] has run exactly once, as the last thing. *)
Theorem deferred_calls env record w :
  (forall code,
      (handleImage env record w).1 = Exit code ->
      code = 1
      /\ (EvDone ∉ workerEvents env record w)
      /\ (EvBodyClose ∉ workerEvents env record w))
  /\ ((handleImage env record w).1 = Value tt ->
      exists before,
        workerEvents env record w = before ++ [EvDone] /\ EvDone ∉ before).
Proof.
  worker_cases env record w; (split; [intros code Hc | intros Hv]); try discriminate.
  all: try (injection Hc as <-; split; [done |]; split; not_among).
  all: match goal with
       | |- exists before, ?l = before ++ [EvDone] /\ _ =>
           exists (removelast l); split; [reflexivity | cbn [removelast]; not_among]
       end.
Qed.

(** X8. An error of the encoder ends the process: for a supported key
    whose object is fetched, decoded and labelled, when the encoder of
    the extension fails the worker exits with code 1 after running that
    encoder, requests no store and leaves the objects as they were. *)
Theorem encode_failure_is_fatal env record w ext body img fmt labeled :
  isImageFile (keyOf record) = (true, ext) ->
  getAnswer env w (bucketOf record) (keyOf record) = Some body ->
  image_Decode env body = Some (img, fmt) ->
  addLabel img (anchorOf img) (anchorOf img) "This is watermark" = Some labeled ->
  encoder env (codecOf ext) labeled = None ->
  (handleImage env record w).1 = Exit 1
  /\ encodeCalls (workerEvents env record w) = [codecOf ext]
  /\ putCalls (workerEvents env record w) = []
  /\ objects (handleImage env record w).2 = objects w.
Proof.
  intros Hk Hg Hd Ha He.
  worker_cases env record w;
    repeat match goal with
           | H1 : addLabel ?i ?x ?y ?l = _, H2 : addLabel ?i ?x ?y ?l = _ |- _ =>
               rewrite H1 in H2; try injection H2 as ->
           | H1 : encoder ?e ?c ?l = _, H2 : encoder ?e ?c ?l = _ |- _ =>
               rewrite H1 in H2
           end; try discriminate.
  done.
Qed.

(** *** More on addLabel *)

Lemma inRect_spec x y r :
  inRect x y r = true
  <-> X (Min r) <= x < X (Max r) /\ Y (Min r) <= y < Y (Max r).
Proof.
  unfold inRect. rewrite !andb_true_iff, !Z.leb_le, !Z.ltb_lt. lia.
Qed.

(** A point of an intersection is a point of both rectangles. *)
Lemma inRect_Intersect x y r s :
  inRect x y (Intersect r s) = true -> inRect x y r = true /\ inRect x y s = true.
Proof.
  unfold Intersect. destruct (Empty _).
  - rewrite inRect_spec. cbn [ZR Min Max X Y]. lia.
  - rewrite !inRect_spec. cbn [Min Max X Y]. lia.
Qed.

Lemma inRect_Rect_Add x y r p :
  inRect x y (Rect_Add r p) = true -> inRect (x - X p) (y - Y p) r = true.
Proof.
  rewrite !inRect_spec. unfold Rect_Add, Point_Add. cbn [Min Max X Y]. lia.
Qed.

Lemma NewRGBA_fresh r rgba :
  NewRGBA r = Some rgba -> Rect rgba = r /\ forall x y, Pix rgba x y = mkRGBA 0 0 0 0.
Proof.
  unfold NewRGBA. destruct (_ && _); [| discriminate]. by intros [= <-].
Qed.

(** What [draw.Draw] from the source point (0, 0) leaves in a fresh
    buffer with the bounds of the image: a pixel is still zero, or it
    holds the source pixel found by taking the corner of the bounds off
    its coordinates. *)
Lemma Draw_Src_fresh img rgba px py :
  NewRGBA (Bounds img) = Some rgba ->
  Pix (Draw_Src rgba (Rect rgba) img (Pt 0 0)) px py = mkRGBA 0 0 0 0
  \/ (inRect px py (Bounds img) = true
      /\ inRect (px - X (Min (Bounds img))) (py - Y (Min (Bounds img))) (Bounds img) = true
      /\ Pix (Draw_Src rgba (Rect rgba) img (Pt 0 0)) px py
         = rgbaModel (At img (px - X (Min (Bounds img))) (py - Y (Min (Bounds img))))).
Proof.
  intros Hnew. apply NewRGBA_fresh in Hnew as [Hrect Hzero].
  unfold Draw_Src. cbv zeta. rewrite Hrect.
  destruct (Empty _); [left; apply Hzero |]. cbn [Pix].
  destruct (inRect px py _) eqn:Hin; [right | left; apply Hzero].
  apply inRect_Intersect in Hin as [Hin1 Hin2].
  apply inRect_Intersect in Hin1 as [Hin1 _].
  apply inRect_Rect_Add in Hin2. cbn [Point_Sub X Y] in Hin2.
  rewrite !Z.sub_0_r in Hin2. cbn [X Y]. rewrite !Z.add_0_l. done.
Qed.

(** X9. For any image, origin or not: [addLabel] gives an image with the
    bounds of the input, and each of its pixels is the red of the label,
    or zero, or the input pixel found by taking the corner of the bounds
    off its coordinates (the input pixel itself when the bounds start at
    the origin). *)
Theorem addLabel_pixels img x y label rgba :
  binaryFace Face7x13 ->
  addLabel img x y label = Some rgba ->
  Rect rgba = Bounds img
  /\ forall px py,
       Pix rgba px py = red
       \/ Pix rgba px py = mkRGBA 0 0 0 0
       \/ (inRect px py (Bounds img) = true
           /\ inRect (px - X (Min (Bounds img))) (py - Y (Min (Bounds img))) (Bounds img) = true
           /\ Pix rgba px py
              = rgbaModel (At img (px - X (Min (Bounds img))) (py - Y (Min (Bounds img))))).
Proof.
  intros Hface. unfold addLabel.
  destruct (NewRGBA (Bounds img)) as [fresh|] eqn:Hnew; [| discriminate].
  cbv zeta. intros [= <-]. split.
  - unfold DrawString. rewrite DrawRunes_Rect. cbn [Dst]. rewrite Draw_Src_Rect.
    unfold NewRGBA in Hnew. destruct (_ && _); [| discriminate]. by injection Hnew as <-.
  - intros px py. unfold DrawString.
    match goal with
    | |- context [DrawRunes ?d ?p ?cs] =>
        destruct (DrawRunes_pixel cs px py d p Hface Logic.eq_refl) as [-> | ->]
    end; [| by left].
    right. cbn [Dst]. by apply Draw_Src_fresh.
Qed.

(** X10. With the empty label nothing is drawn: on an image whose bounds
    start at the origin, [addLabel] gives the input image converted to
    RGBA, pixel by pixel, whatever the anchor and the font. *)
Theorem addLabel_empty_label img x y rgba :
  Min (Bounds img) = Pt 0 0 ->
  addLabel img x y "" = Some rgba ->
  Rect rgba = Bounds img
  /\ forall px py,
       inRect px py (Bounds img) = true ->
       Pix rgba px py = rgbaModel (At img px py).
Proof.
  intros Hmin. unfold addLabel.
  destruct (NewRGBA (Bounds img)) as [fresh|] eqn:Hnew; [| discriminate].
  cbv zeta. intros [= <-].
  assert (Hrect : Rect fresh = Bounds img).
  { unfold NewRGBA in Hnew. destruct (_ && _); [| discriminate]. by injection Hnew as <-. }
  unfold DrawString. cbn [len bytes list_ascii_of_string length rangeRunes DrawRunes Dst].
  split; [by rewrite Draw_Src_Rect |].
  intros px py Hin. by apply Draw_Src_origin.
Qed.

Lemma int32_int64 z : int32 (int64 z) = int32 z.
Proof.
  unfold int32, int64, wrap. f_equal.
  change (2 ^ (64 - 1)) with (2 ^ 31 * 2 ^ 32).
  change (2 ^ 64) with (2 ^ 32 * 2 ^ 32).
  change (2 ^ (32 - 1)) with (2 ^ 31).
  rewrite (Z.mod_eq (z + 2 ^ 31 * 2 ^ 32)) by lia.
  replace (z + 2 ^ 31 * 2 ^ 32
           - 2 ^ 32 * 2 ^ 32 * ((z + 2 ^ 31 * 2 ^ 32) / (2 ^ 32 * 2 ^ 32))
           - 2 ^ 31 * 2 ^ 32 + 2 ^ 31)
    with (z + 2 ^ 31 + (- (2 ^ 32 * ((z + 2 ^ 31 * 2 ^ 32) / (2 ^ 32 * 2 ^ 32)))) * 2 ^ 32)
    by ring.
  apply Z.mod_add. lia.
Qed.

Lemma anchor_period z : int32 (int64 ((z + 2 ^ 26) * 64)) = int32 (int64 (z * 64)).
Proof.
  rewrite !int32_int64. unfold int32, wrap. f_equal.
  change (2 ^ (32 - 1)) with (2 ^ 31).
  replace ((z + 2 ^ 26) * 64 + 2 ^ 31) with (z * 64 + 2 ^ 31 + 1 * 2 ^ 32) by ring.
  apply Z.mod_add. lia.
Qed.

(** X11. The anchor is converted to 26.6 fixed point in 32 bits, so it
    counts modulo [2 ^ 26] pixels: moving it by [2 ^ 26] in either
    direction gives the same image. *)
Theorem addLabel_anchor_wraps img x y label :
  addLabel img (x + 2 ^ 26) y label = addLabel img x y label
  /\ addLabel img x (y + 2 ^ 26) label = addLabel img x y label.
Proof.
  unfold addLabel. destruct (NewRGBA (Bounds img)); [| done].
  cbv zeta. by rewrite !anchor_period.
Qed.

(** *** More on the output key and the trace *)

Lemma putCalls_key env record w p :
  p ∈ putCalls (workerEvents env record w) ->
  PutKey p = "labeled-images/" +:+ Base (keyOf record).
Proof.
  worker_cases env record w; cbn [putCalls omap]; intros Hp;
    try (by apply elem_of_nil in Hp); by apply list_elem_of_singleton in Hp as ->.
Qed.

(** X13. The directory of a key is dropped: two records whose keys end in
    the same file name, in whatever directories, have their outputs
    requested under one and the same key, "labeled-images/" followed by
    that name. *)
Theorem same_name_same_output_key env record1 record2 w1 w2 dir1 dir2 name p1 p2 :
  keyOf record1 = dir1 +:+ "/" +:+ name ->
  keyOf record2 = dir2 +:+ "/" +:+ name ->
  name <> "" ->
  Forall (fun c => c <> "/"%char) (bytes name) ->
  p1 ∈ putCalls (workerEvents env record1 w1) ->
  p2 ∈ putCalls (workerEvents env record2 w2) ->
  PutKey p1 = "labeled-images/" +:+ name /\ PutKey p2 = PutKey p1.
Proof.
  intros Hk1 Hk2 Hne Hall Hp1 Hp2.
  apply putCalls_key in Hp1, Hp2.
  rewrite Hk1, Base_dir in Hp1 by done.
  rewrite Hk2, Base_dir in Hp2 by done.
  by rewrite Hp1, Hp2.
Qed.

(** X14. The process never ends silently: when the worker exits, the
    last thing it did was to log one of its four fatal lines. *)
Theorem exit_is_logged env record w code :
  (handleImage env record w).1 = Exit code ->
  exists before line,
    workerEvents env record w = before ++ [EvLog line]
    /\ (line = LogUnableToDownload (keyOf record)
        \/ line = LogUnableToDecode (keyOf record)
        \/ line = LogEncodeError
        \/ line = LogFailedToSave (keyOf record)).
Proof.
  worker_cases env record w; intros [= <-];
    match goal with
    | |- exists before line, ?l = _ /\ _ =>
        exists (removelast l); eexists; split; [reflexivity | tauto]
    end.
Qed.

Lemma anchorOf_values img : anchorOf img = 0 \/ anchorOf img = 20.
Proof. unfold anchorOf. destruct (_ && _); [by left | by right]. Qed.

(** X15. Whatever the record and the image: [addLabel] is called at most
    once, always with the label "This is watermark" and with an anchor
    that is (0, 0) or (20, 20). *)
Theorem label_is_constant env record w :
  (length (addLabelCalls (workerEvents env record w)) <= 1)%nat
  /\ forall x y label,
       (x, y, label) ∈ addLabelCalls (workerEvents env record w) ->
       label = "This is watermark" /\ x = y /\ (x = 0 \/ x = 20).
Proof.
  worker_cases env record w;
    (split; [cbn; lia |]); intros x y label Hin;
    try (by apply elem_of_nil in Hin);
    apply list_elem_of_singleton in Hin as [= -> -> ->];
    (split; [done |]); (split; [done |]); apply anchorOf_values.
Qed.

End Handler.

(** ** Sample runs

    The handler with the sample decoder, case table and face. *)

Abbreviation classify := (isImageFile sampleDecodeRune sampleLowerRune).
Abbreviation worker := (handleImage sampleDecodeRune sampleLowerRune sampleFace).
Abbreviation events := (workerEvents sampleDecodeRune sampleLowerRune sampleFace).
Abbreviation watermark := (addLabel sampleDecodeRune sampleFace).
Abbreviation covers := (labelCovers sampleDecodeRune sampleFace).

Lemma sample_decode_width c t :
  isASCII c = false ->
  (1 <= (sampleDecodeRune (str (c :: t))).2)%nat
  /\ Forall (fun b => isASCII b = false) (take (sampleDecodeRune (str (c :: t))).2 (c :: t)).
Proof. intros Hc. split; [done |]. cbn. by constructor. Qed.

Lemma sample_decode_rune c t :
  isASCII c = false -> 128 <= (sampleDecodeRune (str (c :: t))).1.
Proof. intros _. cbn. lia. Qed.

Lemma sample_lowerRune_bytes r :
  128 <= r ->
  sampleLowerRune r = "i" \/ sampleLowerRune r = "k"
  \/ (sampleLowerRune r <> ""
      /\ Forall (fun b => isASCII b = false) (bytes (sampleLowerRune r))).
Proof. intros _. right; right. split; [done |]. repeat constructor. Qed.

Lemma sampleFace_binary : binaryFace sampleFace.
Proof.
  intros dot r dr mask maskp advance. cbn.
  destruct (_ && _); [| discriminate]. intros [= _ <- _ _] x y. cbn.
  destruct (Z.even (x + y)); [by right | by left].
Qed.

(** The scenarios of the specification. *)
Example cat_PNG :
  classify "photos/cat.PNG" = (true, "png")
  /\ events sampleEnv (recordOf "photos/cat.PNG") sampleWorld
     = [EvLog (LogStart "photos/cat.PNG");
        EvGetObject "bucket" "photos/cat.PNG";
        EvAddLabel 0 0 "This is watermark";
        EvLog (LogAddLabel 10 10);
        EvEncode PNG;
        EvLog LogSaving;
        EvPutObject (mkPut "bucket" "labeled-images/cat.PNG"
                           [Byte.x89; Byte.x50; Byte.x4e; Byte.x47] "image/png");
        EvBodyClose; EvDone].
Proof. split; reflexivity. Qed.

Example dog_jpg :
  classify "photos/dog.jpg" = (true, "jpg")
  /\ events sampleEnv (recordOf "photos/dog.jpg") sampleWorld
     = [EvLog (LogStart "photos/dog.jpg");
        EvGetObject "bucket" "photos/dog.jpg";
        EvAddLabel 20 20 "This is watermark";
        EvLog (LogAddLabel 800 800);
        EvEncode JPEG;
        EvLog LogSaving;
        EvPutObject (mkPut "bucket" "labeled-images/dog.jpg" [Byte.xff; Byte.xd8] "image/jpg");
        EvBodyClose; EvDone].
Proof. split; reflexivity. Qed.

Example readme_txt :
  worker sampleEnv (recordOf "docs/readme.txt") sampleWorld
  = (Value tt, mkWorld (objects sampleWorld) [EvLog (LogStart "docs/readme.txt"); EvDone]).
Proof. reflexivity. Qed.

Example classify_cases :
  classify "a.jpg" = (true, "jpg") /\ classify "a.JPG" = (true, "jpg")
  /\ classify "a.Jpeg" = (true, "jpeg") /\ classify "dir.png/a.gif" = (false, "")
  /\ classify "png" = (false, "") /\ classify ".png" = (true, "png").
Proof. repeat split. Qed.

Example Base_cases :
  Base "photos/cat.PNG" = "cat.PNG" /\ Base "a/b/c.jpg/" = "c.jpg"
  /\ Base "//" = "/" /\ Base "" = "." /\ Base "plain.png" = "plain.png".
Proof. repeat split. Qed.

(** A key under [labeled-images/]: the object fetched is replaced. *)
Example labeled_cat_png :
  objects sampleWorld !! ("bucket", "labeled-images/cat.png")
  = Some (mkObject [Byte.x01] "image/png")
  /\ (worker sampleEnv (recordOf "labeled-images/cat.png") sampleWorld).1 = Value tt
  /\ objects (worker sampleEnv (recordOf "labeled-images/cat.png") sampleWorld).2
       !! ("bucket", "labeled-images/cat.png")
     = Some (mkObject [Byte.x89; Byte.x50; Byte.x4e; Byte.x47] "image/png").
Proof. repeat split. Qed.

(** A key with a doubled slash reaches the object of the cleaned key:
    the object under [labeled-images/cat.png] is fetched and replaced,
    though the key does not have the form [labeled-images/<basename>]. *)
Example doubled_slash :
  objectKey "labeled-images//cat.png" = "labeled-images/cat.png"
  /\ events sampleEnv (recordOf "labeled-images//cat.png") sampleWorld
     = [EvLog (LogStart "labeled-images//cat.png");
        EvGetObject "bucket" "labeled-images//cat.png";
        EvAddLabel 0 0 "This is watermark";
        EvLog (LogAddLabel 10 10);
        EvEncode PNG;
        EvLog LogSaving;
        EvPutObject (mkPut "bucket" "labeled-images/cat.png"
                           [Byte.x89; Byte.x50; Byte.x4e; Byte.x47] "image/png");
        EvBodyClose; EvDone]
  /\ objects (worker sampleEnv (recordOf "labeled-images//cat.png") sampleWorld).2
       !! ("bucket", "labeled-images/cat.png")
     = Some (mkObject [Byte.x89; Byte.x50; Byte.x4e; Byte.x47] "image/png").
Proof. repeat split. Qed.

Example objectKey_cases :
  objectKey "photos//cat.png" = "photos/cat.png"
  /\ objectKey "a/./b/../c.png" = "a/c.png"
  /\ objectKey "../x.png" = "x.png"
  /\ objectKey "photos/cat.PNG" = "photos/cat.PNG".
Proof. repeat split. Qed.

(** A refused store ends the process and leaves the objects alone. *)
Example refused_store :
  worker readOnlyEnv (recordOf "photos/cat.PNG") sampleWorld
  = (Exit 1,
     mkWorld (objects sampleWorld)
       [EvLog (LogStart "photos/cat.PNG");
        EvGetObject "bucket" "photos/cat.PNG";
        EvAddLabel 0 0 "This is watermark";
        EvLog (LogAddLabel 10 10);
        EvEncode PNG;
        EvLog LogSaving;
        EvPutObject (mkPut "bucket" "labeled-images/cat.PNG"
                           [Byte.x89; Byte.x50; Byte.x4e; Byte.x47] "image/png");
        EvLog (LogFailedToSave "photos/cat.PNG")]).
Proof. reflexivity. Qed.

(** A missing object ends the process before anything is decoded. *)
Example missing_object :
  worker sampleEnv (recordOf "photos/none.jpeg") sampleWorld
  = (Exit 1,
     mkWorld (objects sampleWorld)
       [EvLog (LogStart "photos/none.jpeg");
        EvGetObject "bucket" "photos/none.jpeg";
        EvLog (LogUnableToDownload "photos/none.jpeg")]).
Proof. reflexivity. Qed.

(** The placement test reads [bounds.Max], not the width and the height:
    an image 15 pixels wide and high whose bounds start at (10, 10) gets
    the anchor 20. *)
Example anchorOf_offsetImage :
  Dx (Bounds offsetImage) = 15 /\ Dy (Bounds offsetImage) = 15 /\ anchorOf offsetImage = 20.
Proof. repeat split. Qed.

(** With a face, on an image at the origin: the pixel under a set bit of
    the first glyph is red, its neighbour is the input pixel. *)
Example watermark_smallImage :
  exists rgba,
    watermark smallImage 0 0 "This is watermark" = Some rgba
    /\ Pix rgba 0 0 = mkRGBA 255 255 255 255
    /\ Pix rgba 1 0 = mkRGBA 255 0 0 255
    /\ Pix rgba 7 9 = mkRGBA 255 255 255 255.
Proof. eexists. split; [reflexivity |]. repeat split. Qed.

(** *** Instances of the theorems *)

Lemma isImageFile_classifies_witness :
  (forall ext,
      classify "photos/cat.PNG" = (true, ext) <->
      (ext = "jpg" \/ ext = "jpeg" \/ ext = "png")
      /\ endsIgnoringCase "photos/cat.PNG" ("." +:+ ext))
  /\ (classify "photos/cat.PNG" = (false, "") <->
      ~ (endsIgnoringCase "photos/cat.PNG" ".jpg" \/ endsIgnoringCase "photos/cat.PNG" ".jpeg"
         \/ endsIgnoringCase "photos/cat.PNG" ".png")).
Proof.
  apply (isImageFile_classifies sampleDecodeRune sampleLowerRune
           sample_decode_width sample_decode_rune sample_lowerRune_bytes "photos/cat.PNG").
Defined.

Lemma unsupported_skipped_witness :
  (classify (keyOf (recordOf "docs/readme.txt"))).1 = false
  /\ (worker sampleEnv (recordOf "docs/readme.txt") sampleWorld).1 = Value tt
  /\ getCalls (events sampleEnv (recordOf "docs/readme.txt") sampleWorld) = []
  /\ putCalls (events sampleEnv (recordOf "docs/readme.txt") sampleWorld) = [].
Proof.
  assert (Hk : (classify (keyOf (recordOf "docs/readme.txt"))).1 = false) by reflexivity.
  split; [exact Hk |].
  destruct (unsupported_skipped sampleDecodeRune sampleLowerRune sampleFace
              sampleEnv (recordOf "docs/readme.txt") sampleWorld Hk) as (H1 & H2 & H3 & _).
  exact (conj H1 (conj H2 H3)).
Defined.

Lemma stored_object_witness :
  classify (keyOf (recordOf "photos/cat.PNG")) = (true, "png")
  /\ (worker sampleEnv (recordOf "photos/cat.PNG") sampleWorld).1 = Value tt
  /\ exists buf,
       putCalls (events sampleEnv (recordOf "photos/cat.PNG") sampleWorld)
       = [mkPut "bucket" ("labeled-images/" +:+ Base "photos/cat.PNG") buf ("image/" +:+ "png")].
Proof.
  assert (Hk : classify (keyOf (recordOf "photos/cat.PNG")) = (true, "png")) by reflexivity.
  assert (Hret : (worker sampleEnv (recordOf "photos/cat.PNG") sampleWorld).1 = Value tt)
    by reflexivity.
  split; [exact Hk |]. split; [exact Hret |].
  destruct (stored_object sampleDecodeRune sampleLowerRune sampleFace
              sample_decode_width sample_decode_rune sample_lowerRune_bytes
              sampleEnv (recordOf "photos/cat.PNG") sampleWorld "png" Hk Hret)
    as [(buf & Hput & _) _].
  exists buf. exact Hput.
Defined.

Lemma failures_are_fatal_witness :
  classify (keyOf (recordOf "photos/torn.png")) = (true, "png")
  /\ getAnswer sampleEnv sampleWorld "bucket" "photos/torn.png" = Some [Byte.x00]
  /\ image_Decode sampleEnv [Byte.x00] = None
  /\ (worker sampleEnv (recordOf "photos/torn.png") sampleWorld).1 = Exit 1
  /\ putCalls (events sampleEnv (recordOf "photos/torn.png") sampleWorld) = [].
Proof.
  assert (Hk : classify (keyOf (recordOf "photos/torn.png")) = (true, "png")) by reflexivity.
  assert (Hg : getAnswer sampleEnv sampleWorld (bucketOf (recordOf "photos/torn.png"))
                 (keyOf (recordOf "photos/torn.png")) = Some [Byte.x00]) by reflexivity.
  assert (Hd : image_Decode sampleEnv [Byte.x00] = None) by reflexivity.
  split; [exact Hk |]. split; [exact Hg |]. split; [exact Hd |].
  destruct (failures_are_fatal sampleDecodeRune sampleLowerRune sampleFace
              sampleEnv (recordOf "photos/torn.png") sampleWorld "png" Hk)
    as (_ & Hdecode & _).
  destruct (Hdecode [Byte.x00] Hg Hd) as (H1 & H2 & _).
  exact (conj H1 H2).
Defined.

Lemma codec_follows_extension_witness :
  classify (keyOf (recordOf "photos/dog.jpg")) = (true, "jpg")
  /\ forall p,
       p ∈ putCalls (events sampleEnv (recordOf "photos/dog.jpg") sampleWorld) ->
       exists labeled,
         encodeCalls (events sampleEnv (recordOf "photos/dog.jpg") sampleWorld) = [JPEG]
         /\ jpeg_Encode sampleEnv labeled = Some (PutBody p).
Proof.
  assert (Hk : classify (keyOf (recordOf "photos/dog.jpg")) = (true, "jpg")) by reflexivity.
  split; [exact Hk |]. intros p Hp.
  destruct (codec_follows_extension sampleDecodeRune sampleLowerRune sampleFace
              sampleEnv (recordOf "photos/dog.jpg") sampleWorld "jpg" Hk) as [Hput _].
  destruct (Hput p Hp) as (labeled & _ & Hjpeg).
  exists labeled. apply Hjpeg. by right.
Defined.

Lemma label_placement_witness :
  classify (keyOf (recordOf "photos/cat.PNG")) = (true, "png")
  /\ getAnswer sampleEnv sampleWorld "bucket" "photos/cat.PNG" = Some [Byte.x01]
  /\ image_Decode sampleEnv [Byte.x01] = Some (smallImage, "png")
  /\ Min (Bounds smallImage) = Pt 0 0
  /\ (Dx (Bounds smallImage) < 20 /\ Dy (Bounds smallImage) < 20)
  /\ addLabelCalls (events sampleEnv (recordOf "photos/cat.PNG") sampleWorld)
     = [(0, 0, "This is watermark")].
Proof.
  assert (Hk : classify (keyOf (recordOf "photos/cat.PNG")) = (true, "png")) by reflexivity.
  assert (Hg : getAnswer sampleEnv sampleWorld (bucketOf (recordOf "photos/cat.PNG"))
                 (keyOf (recordOf "photos/cat.PNG")) = Some [Byte.x01]) by reflexivity.
  assert (Hd : image_Decode sampleEnv [Byte.x01] = Some (smallImage, "png")) by reflexivity.
  assert (Hmin : Min (Bounds smallImage) = Pt 0 0) by reflexivity.
  assert (Hsize : Dx (Bounds smallImage) < 20 /\ Dy (Bounds smallImage) < 20)
    by (split; reflexivity).
  split; [exact Hk |]. split; [exact Hg |]. split; [exact Hd |]. split; [exact Hmin |].
  split; [exact Hsize |].
  exact (proj1 (label_placement sampleDecodeRune sampleLowerRune sampleFace
                  sampleEnv (recordOf "photos/cat.PNG") sampleWorld "png"
                  [Byte.x01] smallImage "png" Hk Hg Hd Hmin) Hsize).
Defined.

Lemma encodeStep_unsupported_witness :
  ("gif" <> "png" /\ "gif" <> "jpeg" /\ "gif" <> "jpg")
  /\ encodeStep sampleEnv "gif" onePixel sampleWorld = (Value [], sampleWorld).
Proof.
  assert (Hpng : "gif" <> "png") by discriminate.
  assert (Hjpeg : "gif" <> "jpeg") by discriminate.
  assert (Hjpg : "gif" <> "jpg") by discriminate.
  split; [exact (conj Hpng (conj Hjpeg Hjpg)) |].
  exact (proj1 (encodeStep_unsupported sampleDecodeRune sampleLowerRune
                  sampleEnv "gif" onePixel sampleWorld Hpng Hjpeg Hjpg)).
Defined.

(** C3, as the specification has it, fails at the extension "gif": the
    encode step returns the empty buffer and does not end the process. *)
Lemma encodeStep_gif_does_not_fail :
  ~ (forall env ext labeled w,
        ext <> "png" -> ext <> "jpeg" -> ext <> "jpg" ->
        exists code w', encodeStep env ext labeled w = (Exit code, w')).
Proof.
  intros Hclaim.
  destruct (Hclaim sampleEnv "gif" onePixel sampleWorld) as (code & w' & Hfail);
    try discriminate.
Qed.

(** *** Instances of the further theorems *)

Lemma isImageFile_prefix_witness :
  (5 <= len "a.PNG")%nat /\ classify ("photos/" +:+ "a.PNG") = classify "a.PNG".
Proof.
  assert (Hlen : (5 <= len "a.PNG")%nat) by (vm_compute; lia).
  split; [exact Hlen |].
  exact (isImageFile_prefix sampleDecodeRune sampleLowerRune
           sample_decode_width sample_decode_rune sample_lowerRune_bytes
           "photos/" "a.PNG" Hlen).
Defined.

Lemma isImageFile_short_witness :
  (len "jpg" < 4)%nat /\ classify "jpg" = (false, "").
Proof.
  assert (Hlen : (len "jpg" < 4)%nat) by (vm_compute; lia).
  split; [exact Hlen |].
  exact (isImageFile_short sampleDecodeRune sampleLowerRune
           sample_decode_width sample_decode_rune sample_lowerRune_bytes "jpg" Hlen).
Defined.

Lemma output_key_is_fixed_witness :
  classify "photos/cat.PNG" = (true, "png")
  /\ classify ("labeled-images/" +:+ Base "photos/cat.PNG") = (true, "png")
  /\ "labeled-images/" +:+ Base ("labeled-images/" +:+ Base "photos/cat.PNG")
     = "labeled-images/" +:+ Base "photos/cat.PNG".
Proof.
  assert (Hk : classify "photos/cat.PNG" = (true, "png")) by reflexivity.
  split; [exact Hk |].
  exact (output_key_is_fixed sampleDecodeRune sampleLowerRune
           sample_decode_width sample_decode_rune sample_lowerRune_bytes
           "photos/cat.PNG" "png" Hk).
Defined.

Lemma reads_only_its_object_witness :
  objects sampleWorld
    !! (bucketOf (recordOf "photos//cat.PNG"), objectKey (keyOf (recordOf "photos//cat.PNG")))
  = objects laterWorld
      !! (bucketOf (recordOf "photos//cat.PNG"), objectKey (keyOf (recordOf "photos//cat.PNG")))
  /\ (worker sampleEnv (recordOf "photos//cat.PNG") sampleWorld).1
     = (worker sampleEnv (recordOf "photos//cat.PNG") laterWorld).1
  /\ events sampleEnv (recordOf "photos//cat.PNG") sampleWorld
     = events sampleEnv (recordOf "photos//cat.PNG") laterWorld.
Proof.
  assert (Hobj : objects sampleWorld
                   !! (bucketOf (recordOf "photos//cat.PNG"),
                       objectKey (keyOf (recordOf "photos//cat.PNG")))
                 = objects laterWorld
                     !! (bucketOf (recordOf "photos//cat.PNG"),
                         objectKey (keyOf (recordOf "photos//cat.PNG"))))
    by reflexivity.
  split; [exact Hobj |].
  exact (reads_only_its_object sampleDecodeRune sampleLowerRune sampleFace
           sampleEnv (recordOf "photos//cat.PNG") sampleWorld laterWorld Hobj).
Defined.

Lemma cat_PNG_not_labeled : ~ labeledForm (objectKey (keyOf (recordOf "photos/cat.PNG"))).
Proof. intros H. apply Base_labeled in H. discriminate H. Qed.

Lemma reprocessing_is_idempotent_witness :
  ~ labeledForm (objectKey (keyOf (recordOf "photos/cat.PNG")))
  /\ objects (worker sampleEnv (recordOf "photos/cat.PNG")
                (worker sampleEnv (recordOf "photos/cat.PNG") sampleWorld).2).2
     = objects (worker sampleEnv (recordOf "photos/cat.PNG") sampleWorld).2.
Proof.
  split; [exact cat_PNG_not_labeled |].
  exact (proj2 (proj2 (reprocessing_is_idempotent sampleDecodeRune sampleLowerRune sampleFace
                         sample_decode_width sample_decode_rune sample_lowerRune_bytes
                         sampleEnv (recordOf "photos/cat.PNG") sampleWorld
                         cat_PNG_not_labeled))).
Defined.

Lemma fetches_first_and_once_witness :
  classify (keyOf (recordOf "photos/dog.jpg")) = (true, "jpg")
  /\ exists rest,
       events sampleEnv (recordOf "photos/dog.jpg") sampleWorld
       = (EvLog (LogStart (keyOf (recordOf "photos/dog.jpg")))
          :: EvGetObject (bucketOf (recordOf "photos/dog.jpg"))
                         (keyOf (recordOf "photos/dog.jpg")) :: rest)
       /\ getCalls rest = [].
Proof.
  assert (Hk : classify (keyOf (recordOf "photos/dog.jpg")) = (true, "jpg")) by reflexivity.
  split; [exact Hk |].
  exact (fetches_first_and_once sampleDecodeRune sampleLowerRune sampleFace
           sampleEnv (recordOf "photos/dog.jpg") sampleWorld "jpg" Hk).
Defined.

Lemma encode_failure_is_fatal_witness :
  exists labeled,
    classify (keyOf (recordOf "photos/cat.PNG")) = (true, "png")
    /\ getAnswer brokenEncoderEnv sampleWorld "bucket" "photos/cat.PNG" = Some [Byte.x01]
    /\ image_Decode brokenEncoderEnv [Byte.x01] = Some (smallImage, "png")
    /\ watermark smallImage (anchorOf smallImage) (anchorOf smallImage) "This is watermark"
       = Some labeled
    /\ encoder brokenEncoderEnv (codecOf "png") labeled = None
    /\ (worker brokenEncoderEnv (recordOf "photos/cat.PNG") sampleWorld).1 = Exit 1
    /\ putCalls (events brokenEncoderEnv (recordOf "photos/cat.PNG") sampleWorld) = [].
Proof.
  eexists.
  assert (Hk : classify (keyOf (recordOf "photos/cat.PNG")) = (true, "png")) by reflexivity.
  assert (Hg : getAnswer brokenEncoderEnv sampleWorld (bucketOf (recordOf "photos/cat.PNG"))
                 (keyOf (recordOf "photos/cat.PNG")) = Some [Byte.x01]) by reflexivity.
  assert (Hd : image_Decode brokenEncoderEnv [Byte.x01] = Some (smallImage, "png"))
    by reflexivity.
  split; [exact Hk |]. split; [exact Hg |]. split; [exact Hd |].
  split; [reflexivity |]. split; [reflexivity |].
  destruct (encode_failure_is_fatal sampleDecodeRune sampleLowerRune sampleFace
              brokenEncoderEnv (recordOf "photos/cat.PNG") sampleWorld "png"
              [Byte.x01] smallImage "png" _ Hk Hg Hd Logic.eq_refl Logic.eq_refl)
    as (H1 & _ & H3 & _).
  exact (conj H1 H3).
Defined.

Lemma addLabel_pixels_witness :
  binaryFace sampleFace
  /\ exists rgba,
       watermark smallImage 0 0 "This is watermark" = Some rgba
       /\ Rect rgba = Bounds smallImage.
Proof.
  split; [exact sampleFace_binary |]. eexists. split; [reflexivity |].
  exact (proj1 (addLabel_pixels sampleDecodeRune sampleFace smallImage 0 0
                  "This is watermark" _ sampleFace_binary Logic.eq_refl)).
Defined.

Lemma addLabel_empty_label_witness :
  Min (Bounds smallImage) = Pt 0 0
  /\ exists rgba,
       watermark smallImage 20 20 "" = Some rgba
       /\ forall px py,
            inRect px py (Bounds smallImage) = true ->
            Pix rgba px py = rgbaModel (At smallImage px py).
Proof.
  split; [reflexivity |]. eexists. split; [reflexivity |].
  exact (proj2 (addLabel_empty_label sampleDecodeRune sampleFace smallImage 20 20 _
                  Logic.eq_refl Logic.eq_refl)).
Defined.

Lemma addLabel_origin_witness :
  binaryFace sampleFace
  /\ Min (Bounds smallImage) = Pt 0 0
  /\ exists rgba,
       watermark smallImage 0 0 "This is watermark" = Some rgba
       /\ forall px py,
            inRect px py (Bounds smallImage) = true ->
            Pix rgba px py = rgbaModel (At smallImage px py) \/ Pix rgba px py = mkRGBA 255 0 0 255.
Proof.
  split; [exact sampleFace_binary |]. split; [reflexivity |].
  eexists. split; [reflexivity |].
  exact (proj2 (addLabel_origin sampleDecodeRune sampleFace smallImage 0 0
                  "This is watermark" _ sampleFace_binary Logic.eq_refl Logic.eq_refl)).
Defined.

Lemma same_name_same_output_key_witness :
  keyOf (recordOf "cats/tom.png") = "cats" +:+ "/" +:+ "tom.png"
  /\ keyOf (recordOf "toons/tom.png") = "toons" +:+ "/" +:+ "tom.png"
  /\ mkPut "bucket" "labeled-images/tom.png" [Byte.x89; Byte.x50; Byte.x4e; Byte.x47] "image/png"
       ∈ putCalls (events sampleEnv (recordOf "cats/tom.png") albumWorld)
  /\ mkPut "bucket" "labeled-images/tom.png" [Byte.x89; Byte.x50; Byte.x4e; Byte.x47] "image/png"
       ∈ putCalls (events sampleEnv (recordOf "toons/tom.png") albumWorld)
  /\ "labeled-images/tom.png" = "labeled-images/" +:+ "tom.png".
Proof.
  assert (Hk1 : keyOf (recordOf "cats/tom.png") = "cats" +:+ "/" +:+ "tom.png") by reflexivity.
  assert (Hk2 : keyOf (recordOf "toons/tom.png") = "toons" +:+ "/" +:+ "tom.png") by reflexivity.
  assert (Hne : "tom.png" <> "") by discriminate.
  assert (Hall : Forall (fun c => c <> "/"%char) (bytes "tom.png"))
    by (repeat constructor; discriminate).
  assert (Hp1 : mkPut "bucket" "labeled-images/tom.png"
                      [Byte.x89; Byte.x50; Byte.x4e; Byte.x47] "image/png"
                ∈ putCalls (events sampleEnv (recordOf "cats/tom.png") albumWorld))
    by (apply list_elem_of_singleton; reflexivity).
  assert (Hp2 : mkPut "bucket" "labeled-images/tom.png"
                      [Byte.x89; Byte.x50; Byte.x4e; Byte.x47] "image/png"
                ∈ putCalls (events sampleEnv (recordOf "toons/tom.png") albumWorld))
    by (apply list_elem_of_singleton; reflexivity).
  split; [exact Hk1 |]. split; [exact Hk2 |]. split; [exact Hp1 |]. split; [exact Hp2 |].
  exact (proj1 (same_name_same_output_key sampleDecodeRune sampleLowerRune sampleFace
                  sampleEnv (recordOf "cats/tom.png") (recordOf "toons/tom.png")
                  albumWorld albumWorld "cats" "toons" "tom.png" _ _
                  Hk1 Hk2 Hne Hall Hp1 Hp2)).
Defined.

Lemma exit_is_logged_witness :
  (worker sampleEnv (recordOf "photos/torn.png") sampleWorld).1 = Exit 1
  /\ exists before line,
       events sampleEnv (recordOf "photos/torn.png") sampleWorld = before ++ [EvLog line]
       /\ (line = LogUnableToDownload (keyOf (recordOf "photos/torn.png"))
           \/ line = LogUnableToDecode (keyOf (recordOf "photos/torn.png"))
           \/ line = LogEncodeError
           \/ line = LogFailedToSave (keyOf (recordOf "photos/torn.png"))).
Proof.
  assert (Hexit : (worker sampleEnv (recordOf "photos/torn.png") sampleWorld).1 = Exit 1)
    by reflexivity.
  split; [exact Hexit |].
  exact (exit_is_logged sampleDecodeRune sampleLowerRune sampleFace
           sampleEnv (recordOf "photos/torn.png") sampleWorld 1 Hexit).
Defined.

Lemma stores_under_prefix_witness :
  (length (putCalls (events sampleEnv (recordOf "photos/cat.PNG") sampleWorld)) <= 1)%nat
  /\ forall p,
       p ∈ putCalls (events sampleEnv (recordOf "photos/cat.PNG") sampleWorld) ->
       PutBucket p = "bucket"
       /\ (exists name, PutKey p = "labeled-images/" +:+ name)
       /\ objectKey (PutKey p) = PutKey p.
Proof.
  destruct (stores_under_prefix sampleDecodeRune sampleLowerRune sampleFace
              sample_decode_width sample_decode_rune sample_lowerRune_bytes
              sampleEnv (recordOf "photos/cat.PNG") sampleWorld) as (Hone & Hput & _).
  split; [exact Hone |]. intros p Hp.
  destruct (Hput p Hp) as (Hb & Hname & Hclean & _).
  exact (conj Hb (conj Hname Hclean)).
Defined.

(** C10, as the claim has it, fails at the key "labeled-images//cat.png":
    the request is cleaned to "labeled-images/cat.png", so the object
    fetched is the object the worker writes, though the input key does
    not have the form [labeled-images/<basename>]. *)
Lemma fetched_object_overwritten_outside_form :
  ~ (forall env record w p,
        p ∈ putCalls (events env record w) ->
        PutKey p = objectKey (keyOf record) ->
        labeledForm (keyOf record)).
Proof.
  intros Hclaim.
  assert (Hform : labeledForm (keyOf (recordOf "labeled-images//cat.png"))).
  { apply (Hclaim sampleEnv (recordOf "labeled-images//cat.png") sampleWorld
             (mkPut "bucket" "labeled-images/cat.png"
                    [Byte.x89; Byte.x50; Byte.x4e; Byte.x47] "image/png")).
    - apply list_elem_of_singleton. reflexivity.
    - reflexivity. }
  apply Base_labeled in Hform. discriminate Hform.
Qed.

Lemma addLabel_frame_witness :
  binaryFace sampleFace
  /\ Min (Bounds smallImage) = Pt 0 0
  /\ 0 <= Dx (Bounds smallImage) /\ 0 <= Dy (Bounds smallImage)
  /\ 4 * Dx (Bounds smallImage) * Dy (Bounds smallImage) <= maxInt
  /\ exists rgba,
       watermark smallImage 0 0 "This is watermark" = Some rgba
       /\ Rect rgba = Bounds smallImage
       /\ forall px py,
            inRect px py (Bounds smallImage) = true ->
            Pix rgba px py
            = if covers smallImage 0 0 "This is watermark" px py then mkRGBA 255 0 0 255
              else rgbaModel (At smallImage px py).
Proof.
  assert (Hmin : Min (Bounds smallImage) = Pt 0 0) by reflexivity.
  assert (Hdx : 0 <= Dx (Bounds smallImage)) by (vm_compute; discriminate).
  assert (Hdy : 0 <= Dy (Bounds smallImage)) by (vm_compute; discriminate).
  assert (Hsize : 4 * Dx (Bounds smallImage) * Dy (Bounds smallImage) <= maxInt)
    by (vm_compute; discriminate).
  split; [exact sampleFace_binary |]. split; [exact Hmin |]. split; [exact Hdx |].
  split; [exact Hdy |]. split; [exact Hsize |].
  exact (addLabel_frame sampleDecodeRune sampleFace smallImage 0 0 "This is watermark"
           sampleFace_binary Hmin Hdx Hdy Hsize).
Defined.

(** In that image the pixel (1, 0) lies under a set bit of the first
    glyph and (0, 0) does not. *)
Example covers_smallImage :
  covers smallImage 0 0 "This is watermark" 1 0 = true
  /\ covers smallImage 0 0 "This is watermark" 0 0 = false
  /\ covers smallImage 0 0 "" 1 0 = false.
Proof. repeat split. Qed.
